(** * UrbanChain: a shallow embedding of [src/index.ts]

    The program is a single TypeScript file: a [Transaction] value class, a
    [Block] that hashes its own JSON rendering, a [Chain] singleton with a
    brute-force [mine] search and a signature-gated [addBlock], and a
    [Wallet] whose [sendMoney] signs a transaction and submits it.

    Modelling choices.
    - A JavaScript Number is a [number]: an IEEE 754 double, with its
      addition rounded to nearest, ties to even, and with the shortest
      decimal rendering of [Number::toString]. The amount of a transaction
      and the seed and counter of [mine] are Numbers. The readings of the
      host that end up in a block (a millisecond clock, a rounded draw) are
      integers, held as [Z] and rendered as the Number nearest to them.
    - Strings are [string]; a [Buffer] is a list of bytes.
    - [node:crypto] is not part of the repository: its digests and its RSA
      signing and verification are the fields of the class [Crypto].
    - [Date.now()], [Math.random()] and key generation are readings of the
      host: the class [Host] gives the value of the k-th reading and the
      state counts the readings made so far and keeps what [console.log]
      was given.
    - Mutation, exceptions and the unbounded [while (true)] loop are explicit:
      a computation maps a state to a [completion], which is a normal return,
      a thrown error, or a loop that is still running when its fuel is spent. *)

From Stdlib Require Import ZArith String Ascii List Lia DecimalString.
From Stdlib Require Import Floats.SpecFloat.
From stdpp Require Import base option list relations.
Import ListNotations.

Local Open Scope Z_scope.
Local Open Scope string_scope.

(** ** JavaScript values *)

Definition Buffer := list Byte.byte.

(** *** Numbers *)

Local Open Scope Z_scope.

(** A Number: an IEEE 754 binary64 value. A finite non-zero value is
    [m * 2^e] with [m] odd, below 2^53, and [e] at least -1074; [is_Number]
    below says so, and the operations keep to it. *)
Inductive number :=
| NaN
| Infinity (negative : bool)
| Zero (negative : bool)
| Finite (negative : bool) (m : positive) (e : Z).

(** [p * 2^e] with the factors of two moved from [p] to the exponent. *)
Fixpoint odd_part (p : positive) (e : Z) : positive * Z :=
  match p with
  | xO p' => odd_part p' (e + 1)
  | _ => (p, e)
  end.

(** The Number of value [q * 2^e], for [q] of at most 54 bits: infinite
    from 2^1024 on. *)
Definition make (negative : bool) (q e : Z) : number :=
  match q with
  | Zpos p =>
      if 1024 <=? Z.log2 q + e then Infinity negative
      else let '(m, e') := odd_part p e in Finite negative m e'
  | _ => Zero negative
  end.

(** [q], or [q + 1], whichever is nearer to [q + r / d] for [0 <= r < d];
    the even one when both are as near. [r2] is [2 * r]. *)
Definition nearest_even (q r2 d : Z) : Z :=
  if r2 <? d then q
  else if d <? r2 then q + 1
  else if Z.even q then q else q + 1.

(** The Number nearest to [m * 2^e], ties to even. The result is a
    multiple of [2^e'], where [e'] leaves room for 53 bits and is not below
    the least exponent. *)
Definition round_pos (negative : bool) (m : positive) (e : Z) : number :=
  let e' := Z.max (Z.log2 (Zpos m) + 1 + e - 53) (-1074) in
  if e' <=? e then make negative (Zpos m) e
  else
    let d := 2 ^ (e' - e) in
    make negative (nearest_even (Zpos m / d) (2 * (Zpos m mod d)) d) e'.

(** The Number nearest to [n / d]. *)
Definition round_ratio (negative : bool) (n d : positive) : number :=
  let l0 := Z.log2 (Zpos n) - Z.log2 (Zpos d) in
  let l := if Zpos n * 2 ^ Z.max (- l0) 0 <? Zpos d * 2 ^ Z.max l0 0
           then l0 - 1 else l0 in
  let e' := Z.max (l + 1 - 53) (-1074) in
  let num := Zpos n * 2 ^ Z.max (- e') 0 in
  let den := Zpos d * 2 ^ Z.max e' 0 in
  make negative (nearest_even (num / den) (2 * (num mod den)) den) e'.

(** The Number nearest to an integer. *)
Definition Number_of_Z (z : Z) : number :=
  match z with
  | Z0 => Zero false
  | Zpos p => round_pos false p 0
  | Zneg p => round_pos true p 0
  end.

Definition signed (negative : bool) (z : Z) : Z :=
  if negative then - z else z.

(** [x + y] *)
Definition Number_add (x y : number) : number :=
  match x, y with
  | NaN, _ | _, NaN => NaN
  | Infinity a, Infinity b => if Bool.eqb a b then x else NaN
  | Infinity _, _ => x
  | _, Infinity _ => y
  | Zero a, Zero b => Zero (a && b)
  | Zero _, _ => y
  | _, Zero _ => x
  | Finite sx mx ex, Finite sy my ey =>
      let e := Z.min ex ey in
      match signed sx (Zpos mx * 2 ^ (ex - e)) + signed sy (Zpos my * 2 ^ (ey - e)) with
      | Z0 => Zero false
      | Zpos m => round_pos false m e
      | Zneg m => round_pos true m e
      end
  end.

Definition Number_eqb (x y : number) : bool :=
  match x, y with
  | NaN, NaN => true
  | Infinity a, Infinity b => Bool.eqb a b
  | Zero a, Zero b => Bool.eqb a b
  | Finite a m e, Finite b m' e' => Bool.eqb a b && Pos.eqb m m' && Z.eqb e e'
  | _, _ => false
  end.

(** *** Number::toString *)

(** Decimal digits of a natural number. *)
Definition digits (z : Z) : string :=
  NilZero.string_of_uint (N.to_uint (Z.to_N z)).

Fixpoint zeros (n : nat) : string :=
  match n with
  | O => EmptyString
  | S n' => String "0" (zeros n')
  end.

(** A candidate rendering of [k] digits: the integer [s], with
    [10^(k-1) <= s < 10^k], stands for [s * 10^(n - k)]. *)
Record candidate := mkCandidate { cand_s : Z; cand_n : Z }.

(** The value of a candidate as a ratio. *)
Definition cand_num (k : Z) (c : candidate) : Z :=
  cand_s c * 10 ^ Z.max (cand_n c - k) 0.
Definition cand_den (k : Z) (c : candidate) : Z :=
  10 ^ Z.max (k - cand_n c) 0.

(** The positive value [m * 2^e] as a ratio. *)
Definition value_num (m : positive) (e : Z) : Z := Zpos m * 2 ^ Z.max e 0.
Definition value_den (e : Z) : Z := 2 ^ Z.max (- e) 0.

(** [m * 2^e < 10^n] *)
Definition below_pow10 (m : positive) (e n : Z) : bool :=
  value_num m e * 10 ^ Z.max (- n) 0 <? value_den e * 10 ^ Z.max n 0.

(** The [n] with [10^(n-1) <= m * 2^e < 10^n], looked for around the
    estimate that the binary logarithm gives. *)
Definition decimal_exponent (m : positive) (e : Z) : Z :=
  let guess := ((Z.log2 (Zpos m) + e) * 30103) / 100000 in
  match List.find (fun n => below_pow10 m e n && negb (below_pow10 m e (n - 1)))
             [guess - 1; guess; guess + 1; guess + 2; guess + 3] with
  | Some n => n
  | None => guess
  end.

(** The Number that a candidate denotes. *)
Definition denoted (k : Z) (c : candidate) : number :=
  match cand_num k c, cand_den k c with
  | Zpos n, Zpos d => round_ratio false n d
  | _, _ => Zero false
  end.

(** The candidates of [k] digits that denote the Number [m * 2^e]: among
    the multiples of [10^(n - k)] on either side of the value and the power
    of ten above it. *)
Definition candidates (m : positive) (e k : Z) : list candidate :=
  let n := decimal_exponent m e in
  let j := n - k in
  let lower := (value_num m e * 10 ^ Z.max (- j) 0)
               / (value_den e * 10 ^ Z.max j 0) in
  List.filter (fun c => (10 ^ (k - 1) <=? cand_s c) && (cand_s c <? 10 ^ k)
                   && Number_eqb (denoted k c) (round_pos false m e))
         [mkCandidate lower n; mkCandidate (lower + 1) n;
          mkCandidate (10 ^ (k - 1)) (n + 1)].

(** The distance of a candidate from the value, as a ratio. *)
Definition dist_num (m : positive) (e k : Z) (c : candidate) : Z :=
  Z.abs (cand_num k c * value_den e - value_num m e * cand_den k c).
Definition dist_den (e k : Z) (c : candidate) : Z :=
  cand_den k c * value_den e.

(** [c] is to be preferred to [c']: it is nearer to the value or, as near,
    has the even [s]. *)
Definition preferred (m : positive) (e k : Z) (c c' : candidate) : bool :=
  let a := dist_num m e k c * dist_den e k c' in
  let b := dist_num m e k c' * dist_den e k c in
  (a <? b) || ((a =? b) && Z.even (cand_s c)).

Definition best (m : positive) (e k : Z) (cs : list candidate) : option candidate :=
  fold_left (fun acc c =>
               match acc with
               | None => Some c
               | Some c' => if preferred m e k c c' then Some c else Some c'
               end) cs None.

(** The least [k] from 1 on, [fuel] tried at most, with a candidate, and
    the candidate preferred. *)
Fixpoint shortest (fuel : nat) (m : positive) (e k : Z) : Z * candidate :=
  match fuel with
  | O => (k, mkCandidate 0 0)
  | S fuel' =>
      match best m e k (candidates m e k) with
      | Some c => (k, c)
      | None => shortest fuel' m e (k + 1)
      end
  end.

(** The digits [s] of [k] characters laid out for the exponent [n]. *)
Definition layout (s k n : Z) : string :=
  let ds := digits s in
  if (k <=? n) && (n <=? 21) then ds ++ zeros (Z.to_nat (n - k))
  else if (0 <? n) && (n <=? 21) then
    substring 0 (Z.to_nat n) ds ++ "." ++ substring (Z.to_nat n) (Z.to_nat (k - n)) ds
  else if (-6 <? n) && (n <=? 0) then "0." ++ zeros (Z.to_nat (- n)) ++ ds
  else
    let mantissa :=
      if k =? 1 then ds
      else substring 0 1 ds ++ "." ++ substring 1 (Z.to_nat (k - 1)) ds in
    mantissa ++ "e" ++ (if n - 1 <? 0 then "-" else "+") ++ digits (Z.abs (n - 1)).

(** [Number::toString(x)] in radix 10. *)
Definition Number_toString (x : number) : string :=
  match x with
  | NaN => "NaN"
  | Infinity negative => if negative then "-Infinity" else "Infinity"
  | Zero _ => "0"
  | Finite negative m e =>
      let '(k, c) := shortest 17 m e 1 in
      (if negative then "-" else EmptyString) ++ layout (cand_s c) k (cand_n c)
  end.

(** [JSON.stringify(x)] for a Number [x]. *)
Definition JSON_number (x : number) : string :=
  match x with
  | NaN | Infinity _ => "null"
  | _ => Number_toString x
  end.

(** The Number of a decimal literal [s * 10^j], as in [1e-7]. *)
Definition Number_of_decimal (s j : Z) : number :=
  match s * 10 ^ Z.max j 0, 10 ^ Z.max (- j) 0 with
  | Zpos n, Zpos d => round_ratio false n d
  | Zneg n, Zpos d => round_ratio true n d
  | _, _ => Zero false
  end.

(** The values of [number] that are Numbers: an odd [m] below 2^53, an
    exponent from -1074 on, a value below 2^1024. *)
Definition is_Number (x : number) : bool :=
  match x with
  | Finite _ m e =>
      Z.odd (Zpos m) && (Zpos m <? 2 ^ 53) && (-1074 <=? e)
      && (Z.log2 (Zpos m) + e <? 1024)
  | _ => true
  end.

(** The same value in the representation of the standard library's
    specification of binary64, whose mantissa is scaled up to 53 bits where
    the exponent allows. *)
Definition to_spec_float (x : number) : spec_float :=
  match x with
  | NaN => S754_nan
  | Infinity s => S754_infinity s
  | Zero s => S754_zero s
  | Finite s m e =>
      let room := Z.min (52 - Z.log2 (Zpos m)) (e + 1074) in
      match Zpos m * 2 ^ room with
      | Zpos m' => S754_finite s m' (e - room)
      | _ => S754_zero s
      end
  end.

Local Open Scope string_scope.

(** An integer literal, and an integer reading of the host, where a Number
    is expected. *)
Coercion Number_of_Z : Z >-> number.

(** [s.substr(start, len)]. *)
Definition substr (s : string) (start len : nat) : string :=
  String.substring start len s.

(** Lower-case hexadecimal digit of a value below 16. *)
Definition hex_digit (n : N) : ascii :=
  if (n <? 10)%N then ascii_of_N (48 + n) else ascii_of_N (87 + n).

Definition quotation_mark : ascii := ascii_of_N 34.
Definition reverse_solidus : ascii := ascii_of_N 92.

Definition str1 (c : ascii) : string := String c EmptyString.
Definition escaped (c : ascii) : string := String reverse_solidus (str1 c).

(** One code unit of [QuoteJSONString]: the quotation mark, the reverse
    solidus and the control characters are escaped, every other code unit
    is kept. *)
Definition JSON_quote_char (c : ascii) : string :=
  let n := N_of_ascii c in
  if (n =? 34)%N then escaped quotation_mark
  else if (n =? 92)%N then escaped reverse_solidus
  else if (n =? 8)%N then escaped "b"
  else if (n =? 12)%N then escaped "f"
  else if (n =? 10)%N then escaped "n"
  else if (n =? 13)%N then escaped "r"
  else if (n =? 9)%N then escaped "t"
  else if (n <? 32)%N then
    escaped "u" ++ "00" ++ String (hex_digit (n / 16)) (str1 (hex_digit (n mod 16)))
  else str1 c.

Fixpoint JSON_quote_body (s : string) : string :=
  match s with
  | EmptyString => EmptyString
  | String c s' => JSON_quote_char c ++ JSON_quote_body s'
  end.

(** [JSON.stringify(s)] for a string [s]. *)
Definition JSON_string (s : string) : string :=
  str1 quotation_mark ++ JSON_quote_body s ++ str1 quotation_mark.

(** [JSON.stringify] of one property: the quoted key, a colon, the value
    already rendered. *)
Definition JSON_property (key rendered : string) : string :=
  JSON_string key ++ ":" ++ rendered.

(** ** Transaction (index.ts 5-11) *)

Record Transaction := mkTransaction {
  amount : number;
  payer : string;
  payee : string
}.

(** [JSON.stringify(this)] of a [Transaction]: own properties in creation
    order. *)
Definition JSON_Transaction (t : Transaction) : string :=
  "{" ++ JSON_property "amount" (JSON_number (amount t))
      ++ "," ++ JSON_property "payer" (JSON_string (payer t))
      ++ "," ++ JSON_property "payee" (JSON_string (payee t)) ++ "}".

Definition Transaction_toString (t : Transaction) : string :=
  JSON_Transaction t.


(** ** Block (index.ts 16-33) *)

Record Block := mkBlock {
  prevHash : string;
  transaction : Transaction;
  ts : Z;
  nonce : Z
}.

(** [JSON.stringify(this)] of a [Block]. The getter [hash] lives on the
    prototype and is not an own property, so it is not rendered; the
    constructor's parameter properties are assigned before the initialised
    field [nonce]. *)
Definition JSON_Block (b : Block) : string :=
  "{" ++ JSON_property "prevHash" (JSON_string (prevHash b))
      ++ "," ++ JSON_property "transaction" (JSON_Transaction (transaction b))
      ++ "," ++ JSON_property "ts" (JSON_number (ts b))
      ++ "," ++ JSON_property "nonce" (JSON_number (nonce b)) ++ "}".

(** ** Chain (index.ts 36-41) *)

Record Chain := mkChain {
  chain : list Block
}.

(** ** The runtime the program runs on *)

Inductive error :=
| TypeError      (* a property read on [undefined] *)
| CryptoError.   (* thrown by [node:crypto], e.g. on a key it cannot parse *)

(** [node:crypto], as the program uses it. *)
Class Crypto := {
  (** [createHash("SHA256").update(s).end(); digest("hex")] *)
  SHA256_hex : string -> string;
  (** [createHash("MD5").update(s).end(); digest("hex")] *)
  MD5_hex : string -> string;
  (** [createVerify("SHA256").update(data); verify(key, signature)] *)
  verify : string -> string -> Buffer -> error + bool;
  (** [createSign("SHA256").update(data).end(); sign(key)] *)
  sign : string -> string -> error + Buffer
}.

Record KeyPair := mkKeyPair {
  kp_publicKey : string;
  kp_privateKey : string
}.

(** The readings of the host, by the number of the reading. *)
Class Host := {
  (** [Date.now()] *)
  Date_now : nat -> Z;
  (** [Math.round(Math.random() * 999999999)] *)
  Math_round_random : nat -> Z;
  (** [crypto.generateKeyPairSync("rsa", ...)] *)
  generateKeyPairSync : nat -> error + KeyPair
}.

(** An argument of [console.log]: a string, or the chain object, which
    the console renders by inspection. *)
Inductive printed :=
| Text (s : string)
| Inspected (c : Chain).

(** What the host has done so far. *)
Record HostState := mkHostState {
  clock_reads : nat;
  random_draws : nat;
  keys_generated : nat;
  console : list printed
}.

(** ** Computations *)

Inductive completion (S A : Type) :=
| Normal (a : A) (s : S)
| Throw (e : error) (s : S)
| Spinning (s : S).
Arguments Normal {S A} a s.
Arguments Throw {S A} e s.
Arguments Spinning {S A} s.

Definition state_of {S A} (c : completion S A) : S :=
  match c with
  | Normal _ s | Throw _ s | Spinning s => s
  end.

Definition JS (S A : Type) := S -> completion S A.

#[global] Instance JS_ret {S} : MRet (JS S) :=
  fun A (a : A) s => Normal a s.

#[global] Instance JS_bind {S} : MBind (JS S) :=
  fun A B (k : A -> JS S B) (m : JS S A) s =>
    match m s with
    | Normal a s' => k a s'
    | Throw e s' => Throw e s'
    | Spinning s' => Spinning s'
    end.

Definition throw {S A} (e : error) : JS S A := fun s => Throw e s.

Definition get {S} : JS S S := fun s => Normal s s.

Definition modify {S} (f : S -> S) : JS S unit := fun s => Normal tt (f s).

(** The result of a library call that may throw. *)
Definition call {S A} (r : error + A) : JS S A :=
  match r with
  | inl e => throw e
  | inr a => mret a
  end.

(** [arr[i]] for a number [i]: [undefined] outside the array. *)
Definition index {A} (arr : list A) (i : Z) : option A :=
  if (i <? 0)%Z then None else arr !! Z.to_nat i.

Record Wallet := mkWallet {
  publicKey : string;
  privateKey : string
}.

(** The program's state: the singleton [Chain.instance] and the host. *)
Record World := mkWorld {
  instance : Chain;
  host : HostState
}.

Section Program.
Context `{!Crypto, !Host}.

(** *** Host operations *)

Definition now : JS HostState Z := fun h =>
  Normal (Date_now (clock_reads h))
         (mkHostState (S (clock_reads h)) (random_draws h) (keys_generated h) (console h)).

Definition round_random : JS HostState Z := fun h =>
  Normal (Math_round_random (random_draws h))
         (mkHostState (clock_reads h) (S (random_draws h)) (keys_generated h) (console h)).

Definition keygen : JS HostState KeyPair := fun h =>
  let h' := mkHostState (clock_reads h) (random_draws h) (S (keys_generated h)) (console h) in
  match generateKeyPairSync (keys_generated h) with
  | inl e => Throw e h'
  | inr kp => Normal kp h'
  end.

Definition console_log (v : printed) : JS HostState unit :=
  modify (fun h =>
    mkHostState (clock_reads h) (random_draws h) (keys_generated h) (console h ++ [v])).

(** A host computation run from a method of the program. *)
Definition on_host {A} (m : JS HostState A) : JS World A := fun w =>
  match m (host w) with
  | Normal a h => Normal a (mkWorld (instance w) h)
  | Throw e h => Throw e (mkWorld (instance w) h)
  | Spinning h => Spinning (mkWorld (instance w) h)
  end.

(** *** Block *)

(** [new Block(prevHash, transaction, ts = Date.now())]: the default of
    [ts] is read when the argument is absent, then the field [nonce] is
    initialised. *)
Definition Block_new (prevHash : string) (transaction : Transaction)
    (ts : option Z) : JS HostState Block :=
  ts ← match ts with Some t => mret t | None => now end;
  nonce ← round_random;
  mret (mkBlock prevHash transaction ts nonce).

(** [get hash()] *)
Definition hash (b : Block) : string :=
  SHA256_hex (JSON_Block b).

(** *** Chain (index.ts 36-96) *)

(** [constructor()] *)
Definition Chain_new : JS HostState Chain :=
  genesis ← Block_new EmptyString (mkTransaction 500 "initial" "Daniel") None;
  mret (mkChain [genesis]).

(** [static instance = new Chain()], run once when the class is defined. *)
Definition boot (h : HostState) : option World :=
  match Chain_new h with
  | Normal c h' => Some (mkWorld c h')
  | _ => None
  end.

(** [get lastBlock()] *)
Definition lastBlock (this : Chain) : option Block :=
  index (chain this) (Z.of_nat (length (chain this)) - 1).

(** [this.chain.push(b)] on [Chain.instance]. *)
Definition push (b : Block) : JS World unit :=
  modify (fun w => mkWorld (mkChain (chain (instance w) ++ [b])) (host w)).

(** The test of the loop in [mine]. *)
Definition solves (nonce solution : number) : bool :=
  let attempt := MD5_hex (Number_toString (Number_add nonce solution)) in
  String.eqb (substr attempt 0 4) "0000".

(** The [while (true)] loop of [mine], from the current [solution]. *)
Fixpoint mine_loop (fuel : nat) (nonce solution : number)
    : JS World number :=
  match fuel with
  | O => fun w => Spinning w
  | S fuel' =>
      if solves nonce solution then
        on_host (console_log (Text ("Solved: " ++ Number_toString solution)));;
        mret solution
      else mine_loop fuel' nonce (Number_add solution 1)
  end.

(** [mine(nonce)] *)
Definition mine (fuel : nat) (nonce : number) : JS World number :=
  on_host (console_log (Text "mining..."));;
  mine_loop fuel nonce 1.

(** [addBlock(transaction, senderPublicKey, signature)] *)
Definition addBlock (transaction : Transaction) (senderPublicKey : string)
    (signature : Buffer) : JS World unit :=
  isValid ← call (verify (Transaction_toString transaction) senderPublicKey signature);
  if isValid : bool then
    w ← get;
    match lastBlock (instance w) with
    | None => throw TypeError
    | Some tail =>
        newBlock ← on_host (Block_new (hash tail) transaction None);
        push newBlock
    end
  else mret tt.

(** *** Wallet (index.ts 98-132) *)

(** [constructor()] *)
Definition Wallet_new : JS HostState Wallet :=
  keypair ← keygen;
  mret (mkWallet (kp_publicKey keypair) (kp_privateKey keypair)).

(** [sendMoney(amount, payeePublicKey)] *)
Definition sendMoney (this : Wallet) (amount : number) (payeePublicKey : string)
    : JS World unit :=
  let transaction := mkTransaction amount (publicKey this) payeePublicKey in
  signature ← call (sign (Transaction_toString transaction) (privateKey this));
  addBlock transaction (publicKey this) signature.

(** *** The statements at the end of the file (index.ts 135-143) *)

Definition script : JS World unit :=
  daniel ← on_host Wallet_new;
  josh ← on_host Wallet_new;
  jacob ← on_host Wallet_new;
  sendMoney daniel 50 (publicKey josh);;
  sendMoney josh 23 (publicKey jacob);;
  sendMoney jacob 5 (publicKey daniel);;
  w ← get;
  on_host (console_log (Inspected (instance w))).

End Program.

(** ** Vocabulary of the statements *)

Section Vocabulary.
Context `{!Crypto, !Host}.

(** One call of a method of [Chain.instance], whatever its completion. *)
Inductive step : World -> World -> Prop :=
| step_addBlock tx key sig w : step w (state_of (addBlock tx key sig w))
| step_mine fuel seed w : step w (state_of (mine fuel seed w)).

(** The states after any sequence of calls, from the state [w0] that the
    static initialiser leaves. *)
Definition reachable (w0 w : World) : Prop :=
  (exists h, boot h = Some w0) /\ rtc step w0 w.

(** Every block but the first names the hash of its predecessor. *)
Definition linked (l : list Block) : Prop :=
  forall i b, l !! S i = Some b ->
    exists p, l !! i = Some p /\ prevHash b = hash p.

(** The same, as a walk along the chain that recomputes each hash. *)
Fixpoint links_ok (l : list Block) : bool :=
  match l with
  | p :: (b :: _) as rest => String.eqb (prevHash b) (hash p) && links_ok rest
  | _ => true
  end.

(** What a chain must satisfy: it starts with [g] and is linked. *)
Definition well_formed (g : Block) (l : list Block) : Prop :=
  l !! 0%nat = Some g /\ linked l.

Definition genesis_transaction : Transaction :=
  mkTransaction 500 "initial" "Daniel".

(** The block that [new Block(p, t)] builds, and the host after it. *)
Definition built (p : string) (t : Transaction) (h : HostState) : Block :=
  mkBlock p t (Date_now (clock_reads h)) (Math_round_random (random_draws h)).

Definition after_build (h : HostState) : HostState :=
  mkHostState (S (clock_reads h)) (S (random_draws h)) (keys_generated h) (console h).

(** The host after [lines] have been written to the console. *)
Definition logged (lines : list printed) (h : HostState) : HostState :=
  mkHostState (clock_reads h) (random_draws h) (keys_generated h)
              (console h ++ lines).

(** The world [mine] leaves when it returns [r]. *)
Definition mined (r : number) (w : World) : World :=
  mkWorld (instance w)
          (logged [Text "mining..."; Text ("Solved: " ++ Number_toString r)]
                  (host w)).

(** The digest of the string [(nonce + solution).toString()] begins with
    the four characters of the difficulty target. *)
Definition meets_target (nonce solution : number) : Prop :=
  String.prefix "0000"
    (MD5_hex (Number_toString (Number_add nonce solution))) = true.

End Vocabulary.

(** ** Vocabulary of the further statements *)

(** *** Reading a rendering back *)

(** Value of a lower-case hexadecimal digit. *)
Definition hex_value (c : ascii) : N :=
  let n := N_of_ascii c in
  if (n <? 58)%N then (n - 48)%N else (n - 87)%N.


(** Reads back one code unit at the head of the body of a quoted string:
    [None] at the closing quotation mark or on a malformed escape. *)
Definition JSON_unquote_char (s : string) : option (ascii * string) :=
  match s with
  | EmptyString => None
  | String a s' =>
      if (N_of_ascii a =? 34)%N then None
      else if (N_of_ascii a =? 92)%N then
        match s' with
        | EmptyString => None
        | String b s'' =>
            let n := N_of_ascii b in
            if (n =? 34)%N then Some (quotation_mark, s'')
            else if (n =? 92)%N then Some (reverse_solidus, s'')
            else if (n =? 98)%N then Some (ascii_of_N 8, s'')
            else if (n =? 102)%N then Some (ascii_of_N 12, s'')
            else if (n =? 110)%N then Some (ascii_of_N 10, s'')
            else if (n =? 114)%N then Some (ascii_of_N 13, s'')
            else if (n =? 116)%N then Some (ascii_of_N 9, s'')
            else if (n =? 117)%N then
              match s'' with
              | String _ (String _ (String h (String l s3))) =>
                  Some (ascii_of_N (16 * hex_value h + hex_value l), s3)
              | _ => None
              end
            else None
        end
      else Some (a, s')
  end.

(** A character that ends a number in a rendering: the comma or the
    closing brace. *)
Definition is_separator (c : ascii) : bool :=
  (N_of_ascii c =? 44)%N || (N_of_ascii c =? 125)%N.

Fixpoint all_chars (P : ascii -> bool) (s : string) : bool :=
  match s with
  | EmptyString => true
  | String c s' => P c && all_chars P s'
  end.

Definition no_separator (s : string) : bool :=
  all_chars (fun c => negb (is_separator c)) s.

(** The host after one more key pair has been generated. *)
Definition after_keygen (h : HostState) : HostState :=
  mkHostState (clock_reads h) (random_draws h) (S (keys_generated h)) (console h).

Section Further.
Context `{!Crypto, !Host}.

(** A call of [addBlock] by its arguments. *)
Definition submission : Type := Transaction * string * Buffer.

Definition submitted (c : submission) : Transaction := fst (fst c).

(** The verifier answers [true] on the submission. *)
Definition accepted (c : submission) : bool :=
  match verify (Transaction_toString (submitted c)) (snd (fst c)) (snd c) with
  | inr true => true
  | _ => false
  end.

(** The state after the call, whatever its completion. *)
Definition submit (w : World) (c : submission) : World :=
  state_of (addBlock (submitted c) (snd (fst c)) (snd c) w).

(** The state after the calls, one after the other. *)
Definition submit_all (cs : list submission) (w : World) : World :=
  fold_left submit cs w.

(** The renderings of the two blocks are different strings with the same
    SHA-256 digest. *)
Definition collide (b1 b2 : Block) : Prop :=
  JSON_Block b1 <> JSON_Block b2 /\
  SHA256_hex (JSON_Block b1) = SHA256_hex (JSON_Block b2).

(** The clock of the host never goes back. *)
Definition monotone_clock : Prop :=
  forall i j, (i <= j)%nat -> (Date_now i <= Date_now j)%Z.

(** Whatever the private key of [kp] signs verifies under its public key. *)
Definition sound_pair (kp : KeyPair) : Prop :=
  forall data, exists sig,
    sign data (kp_privateKey kp) = inr sig /\
    verify data (kp_publicKey kp) sig = inr true.

(** The readings of the host recorded in a chain that was started in host
    state [h]: block [i] carries the [i]-th reading of the clock and the
    [i]-th draw after [h], and the host has made one of each per block. *)
Definition readings_in_step (h : HostState) (w : World) : Prop :=
  clock_reads (host w) = (clock_reads h + length (chain (instance w)))%nat /\
  random_draws (host w) = (random_draws h + length (chain (instance w)))%nat /\
  keys_generated (host w) = keys_generated h /\
  forall i b, chain (instance w) !! i = Some b ->
    ts b = Date_now (clock_reads h + i) /\
    nonce b = Math_round_random (random_draws h + i).

End Further.

(** ** Reference digests

    [node:crypto] delegates to OpenSSL. For closed examples the two digests
    the program asks for are written out here, on bytes held as integers
    below 256 and 32-bit words held as integers below 2^32. *)

Module Digest.

Local Open Scope list_scope.
Local Open Scope Z_scope.

Definition mask32 (x : Z) : Z := x mod 2 ^ 32.
Definition add32 (x y : Z) : Z := mask32 (x + y).
Definition not32 (x : Z) : Z := Z.lxor x (2 ^ 32 - 1).
Definition rotl32 (x n : Z) : Z :=
  mask32 (Z.lor (Z.shiftl x n) (Z.shiftr x (32 - n))).
Definition rotr32 (x n : Z) : Z := rotl32 x (32 - n).

Fixpoint bytes_of_string (s : string) : list Z :=
  match s with
  | EmptyString => []
  | String c s' => Z.of_N (N_of_ascii c) :: bytes_of_string s'
  end.

(** [n] bytes of [x], least significant first. *)
Fixpoint le_bytes (n : nat) (x : Z) : list Z :=
  match n with
  | O => []
  | S n' => x mod 256 :: le_bytes n' (x / 256)
  end.

Definition be_bytes (n : nat) (x : Z) : list Z := rev (le_bytes n x).

Fixpoint le_word (bs : list Z) : Z :=
  match bs with
  | [] => 0
  | b :: bs' => b + 256 * le_word bs'
  end.

Definition be_word (bs : list Z) : Z := le_word (rev bs).

(** The message, a byte 128, zero bytes up to 56 modulo 64, then the
    length in bits on 8 bytes rendered by [len_bytes]. *)
Definition pad (len_bytes : nat -> Z -> list Z) (msg : list Z) : list Z :=
  let n := Z.of_nat (length msg) in
  let zeros := Z.to_nat ((55 - n) mod 64) in
  msg ++ 128 :: repeat 0 zeros ++ len_bytes 8%nat (8 * n).

(** The first [n] groups of [k] elements. *)
Fixpoint chunks {A} (k n : nat) (l : list A) : list (list A) :=
  match n with
  | O => []
  | S n' => firstn k l :: chunks k n' (skipn k l)
  end.

Definition words (word : list Z -> Z) (block : list Z) : list Z :=
  map word (chunks 4 16 block).

Definition blocks (padded : list Z) : list (list Z) :=
  chunks 64 (length padded / 64) padded.

Definition hex_nibble (n : Z) : ascii :=
  if n <? 10 then ascii_of_N (Z.to_N (48 + n)) else ascii_of_N (Z.to_N (87 + n)).

Fixpoint hex_of_bytes (bs : list Z) : string :=
  match bs with
  | [] => EmptyString
  | b :: bs' => String (hex_nibble (b / 16)) (String (hex_nibble (b mod 16)) (hex_of_bytes bs'))
  end.

(** *** MD5 (RFC 1321) *)

Definition md5_K : list Z :=
  [3614090360; 3905402710; 606105819; 3250441966; 4118548399; 1200080426;
   2821735955; 4249261313; 1770035416; 2336552879; 4294925233; 2304563134;
   1804603682; 4254626195; 2792965006; 1236535329; 4129170786; 3225465664;
   643717713; 3921069994; 3593408605; 38016083; 3634488961; 3889429448;
   568446438; 3275163606; 4107603335; 1163531501; 2850285829; 4243563512;
   1735328473; 2368359562; 4294588738; 2272392833; 1839030562; 4259657740;
   2763975236; 1272893353; 4139469664; 3200236656; 681279174; 3936430074;
   3572445317; 76029189; 3654602809; 3873151461; 530742520; 3299628645;
   4096336452; 1126891415; 2878612391; 4237533241; 1700485571; 2399980690;
   4293915773; 2240044497; 1873313359; 4264355552; 2734768916; 1309151649;
   4149444226; 3174756917; 718787259; 3951481745].

Definition md5_shift (i : Z) : Z :=
  nth (Z.to_nat (4 * (i / 16) + i mod 4))
      [7; 12; 17; 22; 5; 9; 14; 20; 4; 11; 16; 23; 6; 10; 15; 21] 0.

Definition md5_round (M : list Z) (st : Z * Z * Z * Z) (i : Z) : Z * Z * Z * Z :=
  let '(a, b, c, d) := st in
  let '(f, g) :=
    if i <? 16 then (Z.lor (Z.land b c) (Z.land (not32 b) d), i)
    else if i <? 32 then (Z.lor (Z.land d b) (Z.land (not32 d) c), (5 * i + 1) mod 16)
    else if i <? 48 then (Z.lxor b (Z.lxor c d), (3 * i + 5) mod 16)
    else (Z.lxor c (Z.lor b (not32 d)), (7 * i) mod 16) in
  let f' := add32 (add32 (add32 f a) (nth (Z.to_nat i) md5_K 0)) (nth (Z.to_nat g) M 0) in
  (d, add32 b (rotl32 f' (md5_shift i)), b, c).

Definition md5_block (st : Z * Z * Z * Z) (block : list Z) : Z * Z * Z * Z :=
  let M := words le_word block in
  let '(a, b, c, d) := st in
  let '(a', b', c', d') := fold_left (md5_round M) (map Z.of_nat (seq 0 64)) st in
  (add32 a a', add32 b b', add32 c c', add32 d d').

Definition md5 (msg : list Z) : list Z :=
  let '(a, b, c, d) :=
    fold_left md5_block (blocks (pad le_bytes msg))
      (1732584193, 4023233417, 2562383102, 271733878) in
  le_bytes 4 a ++ le_bytes 4 b ++ le_bytes 4 c ++ le_bytes 4 d.

Definition md5_hex (s : string) : string := hex_of_bytes (md5 (bytes_of_string s)).

(** *** SHA-256 (FIPS 180-4) *)

Definition sha256_K : list Z :=
  [1116352408; 1899447441; 3049323471; 3921009573; 961987163; 1508970993;
   2453635748; 2870763221; 3624381080; 310598401; 607225278; 1426881987;
   1925078388; 2162078206; 2614888103; 3248222580; 3835390401; 4022224774;
   264347078; 604807628; 770255983; 1249150122; 1555081692; 1996064986;
   2554220882; 2821834349; 2952996808; 3210313671; 3336571891; 3584528711;
   113926993; 338241895; 666307205; 773529912; 1294757372; 1396182291;
   1695183700; 1986661051; 2177026350; 2456956037; 2730485921; 2820302411;
   3259730800; 3345764771; 3516065817; 3600352804; 4094571909; 275423344;
   430227734; 506948616; 659060556; 883997877; 958139571; 1322822218;
   1537002063; 1747873779; 1955562222; 2024104815; 2227730452; 2361852424;
   2428436474; 2756734187; 3204031479; 3329325298].

Definition sha256_H0 : list Z :=
  [1779033703; 3144134277; 1013904242; 2773480762;
   1359893119; 2600822924; 528734635; 1541459225].

Definition xor3 (x y z : Z) : Z := Z.lxor x (Z.lxor y z).

(** The schedule, most recent word first: [W] holds w(t-1) .. w(0). *)
Definition sha256_extend (W : list Z) (_ : nat) : list Z :=
  let w k := nth (k - 1) W 0 in
  let s0 := xor3 (rotr32 (w 15%nat) 7) (rotr32 (w 15%nat) 18) (Z.shiftr (w 15%nat) 3) in
  let s1 := xor3 (rotr32 (w 2%nat) 17) (rotr32 (w 2%nat) 19) (Z.shiftr (w 2%nat) 10) in
  add32 (add32 (w 16%nat) s0) (add32 (w 7%nat) s1) :: W.

Definition sha256_schedule (block : list Z) : list Z :=
  rev (fold_left sha256_extend (seq 16 48) (rev (words be_word block))).

Definition sha256_round (st : list Z) (kw : Z * Z) : list Z :=
  match st with
  | [a; b; c; d; e; f; g; h] =>
      let S1 := xor3 (rotr32 e 6) (rotr32 e 11) (rotr32 e 25) in
      let ch := Z.lxor (Z.land e f) (Z.land (not32 e) g) in
      let t1 := add32 (add32 (add32 h S1) (add32 ch (fst kw))) (snd kw) in
      let S0 := xor3 (rotr32 a 2) (rotr32 a 13) (rotr32 a 22) in
      let maj := xor3 (Z.land a b) (Z.land a c) (Z.land b c) in
      let t2 := add32 S0 maj in
      [add32 t1 t2; a; b; c; add32 d t1; e; f; g]
  | _ => st
  end.

Fixpoint zip_with {A B C} (f : A -> B -> C) (l : list A) (m : list B) : list C :=
  match l, m with
  | x :: l', y :: m' => f x y :: zip_with f l' m'
  | _, _ => []
  end.

Definition sha256_block (st : list Z) (block : list Z) : list Z :=
  zip_with add32 st
    (fold_left sha256_round (combine sha256_K (sha256_schedule block)) st).

Definition sha256 (msg : list Z) : list Z :=
  concat (map (be_bytes 4) (fold_left sha256_block (blocks (pad be_bytes msg)) sha256_H0)).

Definition sha256_hex (s : string) : string := hex_of_bytes (sha256 (bytes_of_string s)).

End Digest.

(** ** A runtime for closed examples

    The digests are the reference ones. RSA is replaced by a stand-in with
    the same interface: a private key [private:id] signs [data] as the bytes
    of [id|data], the public key [public:id] accepts exactly that, and a key
    of another shape is refused with an exception, as OpenSSL refuses a
    string that is not a PEM key. The theorems below hold for every
    [Crypto] and every [Host]; this instance only serves to run them. *)

Module Demo.

Definition key_id (kind key : string) : option string :=
  if String.prefix kind key
  then Some (String.substring (String.length kind)
                              (String.length key - String.length kind) key)
  else None.

Definition tag (id data : string) : string := id ++ "|" ++ data.

Definition demo_sign (data key : string) : error + Buffer :=
  match key_id "private:" key with
  | Some id => inr (list_byte_of_string (tag id data))
  | None => inl CryptoError
  end.

Definition demo_verify (data key : string) (signature : Buffer) : error + bool :=
  match key_id "public:" key with
  | Some id => inr (String.eqb (string_of_list_byte signature) (tag id data))
  | None => inl CryptoError
  end.

Definition crypto : Crypto := {|
  SHA256_hex := Digest.sha256_hex;
  MD5_hex := Digest.md5_hex;
  verify := demo_verify;
  sign := demo_sign
|}.

Definition demo_keys (k : nat) : error + KeyPair :=
  let id := Number_toString (Z.of_nat k) in
  inr (mkKeyPair ("public:" ++ id) ("private:" ++ id)).

Definition host : Host := {|
  Date_now := fun k => (1700000000000 + 1000 * Z.of_nat k)%Z;
  Math_round_random := fun k => ((123456789 * (Z.of_nat k + 1)) mod 1000000000)%Z;
  generateKeyPairSync := demo_keys
|}.

Definition h0 : HostState := mkHostState 0 0 0 [].

(** The world after the class [Chain] has been defined. *)
Definition w0 : World :=
  mkWorld (mkChain [@built host EmptyString genesis_transaction h0])
          (after_build h0).

Definition genesis : Block := @built host EmptyString genesis_transaction h0.

Definition alice : Wallet := mkWallet "public:alice" "private:alice".
Definition bob : Wallet := mkWallet "public:bob" "private:bob".

(** Alice pays Bob 50. *)
Definition tx_ab : Transaction :=
  mkTransaction 50 (publicKey alice) (publicKey bob).

Definition sig_ab : Buffer :=
  list_byte_of_string (tag "alice" (Transaction_toString tx_ab)).

(** A transaction that names Bob as payer and a negative amount, signed
    by Alice. *)
Definition tx_forged : Transaction :=
  mkTransaction (-7) (publicKey bob) (publicKey alice).

Definition sig_forged : Buffer :=
  list_byte_of_string (tag "alice" (Transaction_toString tx_forged)).

(** The world after Alice's payment. *)
Definition w1 : World :=
  state_of (@addBlock crypto host tx_ab (publicKey alice) sig_ab w0).

(** The world after a search that was cut short in [w1]. *)
Definition w2 : World := state_of (@mine crypto 2 5326 w1).

(** The genesis block written out field by field. *)
Definition genesis_literal : Block :=
  mkBlock EmptyString (mkTransaction 500 "initial" "Daniel")
          1700000000000 123456789.


(** The Number written [1e40], and an integer that added to it gives the
    Number that prints as "1.62914e+40". *)
Definition ten_to_40 : number := Number_of_Z (10 ^ 40).

Definition far_solution : Z := 6291400000000000829702738361404509650944.

(** The first three key pairs of [host], which the wallets of the script
    receive. *)
Definition pair0 : KeyPair := mkKeyPair "public:0" "private:0".
Definition pair1 : KeyPair := mkKeyPair "public:1" "private:1".
Definition pair2 : KeyPair := mkKeyPair "public:2" "private:2".

(** Three calls of [addBlock]: Alice's payment, the same under Bob's key,
    and the forged transaction under Alice's key. *)
Definition submissions : list submission :=
  [(tx_ab, publicKey alice, sig_ab);
   (tx_ab, publicKey bob, sig_ab);
   (tx_forged, publicKey alice, sig_forged)].

(** Two transactions that differ in the amount only, [NaN] and
    [Infinity], and the blocks and chains that carry them after the genesis
    block. *)
Definition tx_nan : Transaction :=
  mkTransaction NaN (publicKey alice) (publicKey bob).
Definition tx_inf : Transaction :=
  mkTransaction (Infinity false) (publicKey alice) (publicKey bob).

Definition block_nan : Block :=
  @built host (@hash crypto genesis) tx_nan (after_build h0).
Definition block_inf : Block :=
  @built host (@hash crypto genesis) tx_inf (after_build h0).

Definition chain_nan : list Block := [genesis; block_nan].
Definition chain_inf : list Block := [genesis; block_inf].

(** The block that Alice's payment appends to [w0]. *)
Definition block1 : Block :=
  @built host (@hash crypto genesis) tx_ab (after_build h0).

End Demo.

(** ** Basic facts *)

Section Facts.
Context `{!Crypto, !Host}.

Lemma index_last {A} (l : list A) :
  index l (Z.of_nat (length l) - 1) = last l.
Proof.
  unfold index. rewrite last_lookup.
  destruct l as [|x l]; [reflexivity|].
  destruct (Z.ltb_spec (Z.of_nat (length (x :: l)) - 1) 0) as [Hlt|_].
  - simpl length in Hlt. lia.
  - f_equal. simpl length. lia.
Qed.

Lemma lastBlock_last (c : Chain) : lastBlock c = last (chain c).
Proof. apply index_last. Qed.

Lemma lastBlock_None (c : Chain) : lastBlock c = None <-> chain c = [].
Proof. rewrite lastBlock_last. apply last_None. Qed.

Lemma lastBlock_snoc (l : list Block) (b : Block) :
  lastBlock (mkChain (l ++ [b])) = Some b.
Proof. rewrite lastBlock_last. apply last_snoc. Qed.

Lemma Block_new_default p t h :
  Block_new p t None h = Normal (built p t h) (after_build h).
Proof. reflexivity. Qed.

Lemma Block_new_given p t t0 h :
  exists h', Block_new p t (Some t0) h =
    Normal (mkBlock p t t0 (Math_round_random (random_draws h))) h'
    /\ console h' = console h.
Proof. eexists. split; reflexivity. Qed.

Lemma boot_total h :
  boot h = Some (mkWorld (mkChain [built EmptyString genesis_transaction h])
                         (after_build h)).
Proof. reflexivity. Qed.

(** The four ways [addBlock] can go. *)
Lemma addBlock_throws tx key sig w e :
  verify (Transaction_toString tx) key sig = inl e ->
  addBlock tx key sig w = Throw e w.
Proof. intros Hv. unfold addBlock, mbind, JS_bind. rewrite Hv. reflexivity. Qed.

Lemma addBlock_invalid tx key sig w :
  verify (Transaction_toString tx) key sig = inr false ->
  addBlock tx key sig w = Normal tt w.
Proof. intros Hv. unfold addBlock, mbind, JS_bind. rewrite Hv. reflexivity. Qed.

Lemma addBlock_undefined tx key sig w :
  verify (Transaction_toString tx) key sig = inr true ->
  lastBlock (instance w) = None ->
  addBlock tx key sig w = Throw TypeError w.
Proof.
  intros Hv Hl. unfold addBlock, mbind, JS_bind. rewrite Hv. simpl.
  rewrite Hl. reflexivity.
Qed.

Lemma addBlock_valid tx key sig w tail :
  verify (Transaction_toString tx) key sig = inr true ->
  lastBlock (instance w) = Some tail ->
  addBlock tx key sig w =
    Normal tt (mkWorld
      (mkChain (chain (instance w) ++ [built (hash tail) tx (host w)]))
      (after_build (host w))).
Proof.
  intros Hv Hl. unfold addBlock, mbind, JS_bind. rewrite Hv. simpl.
  rewrite Hl. reflexivity.
Qed.

(** [addBlock] either leaves the state alone or appends one block that is
    linked to the former tail. *)
Lemma addBlock_cases tx key sig w :
  state_of (addBlock tx key sig w) = w \/
  exists tail,
    lastBlock (instance w) = Some tail /\
    verify (Transaction_toString tx) key sig = inr true /\
    state_of (addBlock tx key sig w) =
      mkWorld (mkChain (chain (instance w) ++ [built (hash tail) tx (host w)]))
              (after_build (host w)).
Proof.
  destruct (verify (Transaction_toString tx) key sig) as [e|[|]] eqn:Hv.
  - left. rewrite (addBlock_throws _ _ _ _ e Hv). reflexivity.
  - destruct (lastBlock (instance w)) as [tail|] eqn:Hl.
    + right. exists tail. rewrite (addBlock_valid _ _ _ _ tail Hv Hl). auto.
    + left. rewrite (addBlock_undefined _ _ _ _ Hv Hl). reflexivity.
  - left. rewrite (addBlock_invalid _ _ _ _ Hv). reflexivity.
Qed.

(** [sendMoney] stops at a signer that throws, or is a call of
    [addBlock]. *)
Lemma sendMoney_cases this amt payeePublicKey w :
  state_of (sendMoney this amt payeePublicKey w) = w \/
  exists sig,
    sendMoney this amt payeePublicKey w =
      addBlock (mkTransaction amt (publicKey this) payeePublicKey)
               (publicKey this) sig w.
Proof.
  unfold sendMoney, mbind, JS_bind.
  destruct (sign _ (privateKey this)) as [e|sig].
  - left. reflexivity.
  - right. exists sig. reflexivity.
Qed.

End Facts.

(** ** Arithmetic of Numbers *)

Local Open Scope Z_scope.

Lemma odd_part_spec : forall p e,
  e <= snd (odd_part p e) /\
  Zpos (fst (odd_part p e)) * 2 ^ (snd (odd_part p e) - e) = Zpos p.
Proof.
  induction p as [p IH|p IH|]; intros e; cbn [odd_part fst snd].
  - rewrite Z.sub_diag, Z.pow_0_r. split; lia.
  - destruct (IH (e + 1)) as [Hle Hval]. split; [lia|].
    replace (snd (odd_part p (e + 1)) - e) with (1 + (snd (odd_part p (e + 1)) - (e + 1))) by lia.
    rewrite Z.pow_add_r by lia. change (2 ^ 1) with 2.
    rewrite (Pos2Z.inj_xO p). lia.
  - rewrite Z.sub_diag, Z.pow_0_r. split; lia.
Qed.

Lemma Number_of_Z_exact z :
  0 < z < 2 ^ 53 ->
  exists m e, Number_of_Z z = Finite false m e /\ 0 <= e /\ Zpos m * 2 ^ e = z.
Proof.
  intros Hz. destruct z as [|p|p]; try lia.
  exists (fst (odd_part p 0)), (snd (odd_part p 0)).
  destruct (odd_part_spec p 0) as [Hle Hval]. rewrite Z.sub_0_r in Hval.
  split; [|split; assumption].
  assert (Hlog : Z.log2 (Zpos p) < 53) by (apply Z.log2_lt_pow2; lia).
  unfold Number_of_Z, round_pos.
  replace (Z.max (Z.log2 (Zpos p) + 1 + 0 - 53) (-1074) <=? 0) with true
    by (symmetry; apply Z.leb_le; lia).
  unfold make.
  replace (1024 <=? Z.log2 (Zpos p) + 0) with false
    by (symmetry; apply Z.leb_gt; lia).
  destruct (odd_part p 0). reflexivity.
Qed.

Lemma Number_add_one k :
  1 <= k < 2 ^ 53 ->
  Number_add (Number_of_Z k) (Number_of_Z 1) = Number_of_Z (k + 1).
Proof.
  intros Hk. destruct (Number_of_Z_exact k) as (m & e & -> & He & Hval); [lia|].
  change (Number_of_Z 1) with (Finite false 1 0).
  unfold Number_add, signed. rewrite Z.min_r by lia.
  rewrite Z.sub_0_r, Hval. change (1 * 2 ^ (0 - 0)) with 1.
  destruct (k + 1) as [|q|q] eqn:Hq; try lia. reflexivity.
Qed.

Lemma Number_add_one_top :
  Number_add (Number_of_Z (2 ^ 53)) (Number_of_Z 1) = Number_of_Z (2 ^ 53).
Proof. vm_compute. reflexivity. Qed.

Lemma round_pos_floor negative m e M0 E0 :
  2 ^ 52 <= M0 < 2 ^ 53 -> e < E0 -> -1074 <= E0 ->
  M0 * 2 ^ (E0 - e) <= Zpos m < M0 * 2 ^ (E0 - e) + 2 ^ (E0 - e - 1) ->
  round_pos negative m e = make negative M0 E0.
Proof.
  intros HM He HE Hm.
  set (t := 2 ^ (E0 - e - 1)) in *.
  assert (Ht : 0 < t) by (apply Z.pow_pos_nonneg; lia).
  assert (Hd : 2 ^ (E0 - e) = 2 * t).
  { unfold t. replace (E0 - e) with (1 + (E0 - e - 1)) at 1 by lia.
    rewrite Z.pow_add_r by lia. reflexivity. }
  rewrite Hd in Hm.
  assert (Hlog : Z.log2 (Zpos m) = 52 + (E0 - e)).
  { apply Z.log2_unique; [lia|].
    rewrite Z.pow_succ_r by lia.
    rewrite !Z.pow_add_r, Hd by lia.
    assert (H53 : 2 ^ 53 = 2 * 2 ^ 52) by reflexivity.
    rewrite H53 in *.
    set (a := 2 ^ 52) in *.
    assert (Ha : 0 < a) by reflexivity.
    clearbody a t. split; nia. }
  unfold round_pos. rewrite Hlog.
  replace (Z.max (52 + (E0 - e) + 1 + e - 53) (-1074)) with E0 by lia.
  replace (E0 <=? e) with false by (symmetry; apply Z.leb_gt; lia).
  rewrite Hd.
  assert (Hq : Zpos m / (2 * t) = M0).
  { symmetry. apply (Z.div_unique _ _ _ (Zpos m - M0 * (2 * t))); lia. }
  assert (Hr : Zpos m mod (2 * t) = Zpos m - M0 * (2 * t)).
  { symmetry. apply (Z.mod_unique _ _ M0); lia. }
  rewrite Hq, Hr. unfold nearest_even.
  replace (2 * (Zpos m - M0 * (2 * t)) <? 2 * t) with true
    by (symmetry; apply Z.ltb_lt; lia).
  reflexivity.
Qed.

Lemma odd_part_odd : forall p e, Z.odd (Zpos (fst (odd_part p e))) = true.
Proof. induction p as [p IH|p IH|]; intros e; cbn [odd_part fst]; auto. Qed.

Lemma odd_part_unique : forall p e0 (m : positive) e,
  Z.odd (Zpos m) = true -> e0 <= e ->
  Zpos m * 2 ^ (e - e0) = Zpos p ->
  odd_part p e0 = (m, e).
Proof.
  induction p as [p IH|p IH|]; intros e0 m e Hodd Hle Hval; cbn [odd_part].
  - destruct (Z.eq_dec e e0) as [->|Hne].
    + rewrite Z.sub_diag, Z.pow_0_r, Z.mul_1_r in Hval. congruence.
    + exfalso. replace (e - e0) with (1 + (e - e0 - 1)) in Hval by lia.
      rewrite Z.pow_add_r in Hval by lia. change (2 ^ 1) with 2 in Hval.
      rewrite (Pos2Z.inj_xI p) in Hval. lia.
  - destruct (Z.eq_dec e e0) as [->|Hne].
    + rewrite Z.sub_diag, Z.pow_0_r, Z.mul_1_r in Hval.
      injection Hval as ->. discriminate Hodd.
    + apply IH; [exact Hodd|lia|].
      replace (e - e0) with (1 + (e - (e0 + 1))) in Hval by lia.
      rewrite Z.pow_add_r in Hval by lia. change (2 ^ 1) with 2 in Hval.
      rewrite (Pos2Z.inj_xO p) in Hval. lia.
  - destruct (Z.eq_dec e e0) as [->|Hne].
    + rewrite Z.sub_diag, Z.pow_0_r, Z.mul_1_r in Hval. congruence.
    + exfalso. replace (e - e0) with (1 + (e - e0 - 1)) in Hval by lia.
      rewrite Z.pow_add_r in Hval by lia. change (2 ^ 1) with 2 in Hval. lia.
Qed.

(** The sum of two Numbers that are natural numbers is exact as long as
    it stays below 2^53. *)
Lemma Number_add_exact a b :
  0 <= a -> 0 <= b -> a + b < 2 ^ 53 ->
  Number_add (Number_of_Z a) (Number_of_Z b) = Number_of_Z (a + b).
Proof.
  intros Ha Hb Hsum.
  destruct (Z.eq_dec b 0) as [->|Hb0].
  { rewrite Z.add_0_r. destruct (Z.eq_dec a 0) as [->|Ha0]; [reflexivity|].
    destruct (Number_of_Z_exact a) as (m & e & -> & _); [lia|reflexivity]. }
  destruct (Z.eq_dec a 0) as [->|Ha0].
  { rewrite Z.add_0_l.
    destruct (Number_of_Z_exact b) as (m & e & -> & _); [lia|reflexivity]. }
  destruct (Number_of_Z_exact a) as (ma & ea & -> & Hea & Hva); [lia|].
  destruct (Number_of_Z_exact b) as (mb & eb & -> & Heb & Hvb); [lia|].
  unfold Number_add, signed.
  set (e := Z.min ea eb).
  assert (He : 0 <= e) by lia.
  assert (H2e : 0 < 2 ^ e) by (apply Z.pow_pos_nonneg; lia).
  assert (Hsa : Zpos ma * 2 ^ (ea - e) * 2 ^ e = a).
  { rewrite <- Z.mul_assoc, <- Z.pow_add_r by lia.
    replace (ea - e + e) with ea by lia. exact Hva. }
  assert (Hsb : Zpos mb * 2 ^ (eb - e) * 2 ^ e = b).
  { rewrite <- Z.mul_assoc, <- Z.pow_add_r by lia.
    replace (eb - e + e) with eb by lia. exact Hvb. }
  assert (Hpa : 0 < 2 ^ (ea - e)) by (apply Z.pow_pos_nonneg; lia).
  assert (Hpb : 0 < 2 ^ (eb - e)) by (apply Z.pow_pos_nonneg; lia).
  destruct (Zpos ma * 2 ^ (ea - e) + Zpos mb * 2 ^ (eb - e)) as [|q|q] eqn:Hq;
    try lia.
  assert (Hqv : Zpos q * 2 ^ e = a + b) by (rewrite <- Hq; lia).
  destruct (a + b) as [|c|c] eqn:Hc; try lia.
  unfold Number_of_Z, round_pos.
  assert (Hlc : Z.log2 (Zpos c) < 53) by (apply Z.log2_lt_pow2; lia).
  assert (Hlq : Z.log2 (Zpos q) <= Z.log2 (Zpos c)) by (apply Z.log2_le_mono; nia).
  replace (Z.max (Z.log2 (Zpos q) + 1 + e - 53) (-1074) <=? e) with true
    by (symmetry; apply Z.leb_le; lia).
  replace (Z.max (Z.log2 (Zpos c) + 1 + 0 - 53) (-1074) <=? 0) with true
    by (symmetry; apply Z.leb_le; lia).
  unfold make.
  assert (Hlqe : Z.log2 (Zpos q) + e = Z.log2 (Zpos c)).
  { rewrite <- Hqv. rewrite Z.log2_mul_pow2 by lia. lia. }
  rewrite Hlqe, Z.add_0_r.
  destruct (1024 <=? Z.log2 (Zpos c)) eqn:Hov; [apply Z.leb_le in Hov; lia|].
  destruct (odd_part_spec q e) as [Hle Hval].
  pose proof (odd_part_odd q e) as Hodd.
  destruct (odd_part q e) as [m1 e1] eqn:Hop. cbn [fst snd] in *.
  rewrite (odd_part_unique c 0 m1 e1); [reflexivity|exact Hodd|lia|].
  rewrite Z.sub_0_r, <- Hqv, <- Hval.
  rewrite <- Z.mul_assoc, <- Z.pow_add_r by lia.
  replace (e1 - e + e) with e1 by lia. reflexivity.
Qed.

Lemma make_is_Number negative q e :
  0 <= q <= 2 ^ 53 -> -1074 <= e -> is_Number (make negative q e) = true.
Proof.
  intros Hq He. unfold make. destruct q as [|p|p]; try reflexivity.
  destruct (1024 <=? Z.log2 (Zpos p) + e) eqn:Hov; [reflexivity|].
  apply Z.leb_gt in Hov.
  destruct (odd_part_spec p e) as [Hle Hval].
  pose proof (odd_part_odd p e) as Hodd.
  destruct (odd_part p e) as [m e1]. cbn [fst snd] in *.
  assert (Hpow : 0 < 2 ^ (e1 - e)) by (apply Z.pow_pos_nonneg; lia).
  assert (Hlog : Z.log2 (Zpos p) = e1 - e + Z.log2 (Zpos m)).
  { rewrite <- Hval. apply Z.log2_mul_pow2; lia. }
  assert (Hm : Zpos m < 2 ^ 53).
  { assert (Zpos m <= 2 ^ 53) by nia.
    destruct (Z.eq_dec (Zpos m) (2 ^ 53)) as [Heq|]; [|lia].
    rewrite Heq in Hodd. discriminate Hodd. }
  unfold is_Number. rewrite Hodd. cbn [andb].
  apply andb_true_intro. split; [apply andb_true_intro; split|].
  - apply Z.ltb_lt. exact Hm.
  - apply Z.leb_le. lia.
  - apply Z.ltb_lt. lia.
Qed.

Lemma round_pos_is_Number negative m e :
  is_Number (round_pos negative m e) = true.
Proof.
  unfold round_pos.
  set (e' := Z.max (Z.log2 (Zpos m) + 1 + e - 53) (-1074)).
  destruct (e' <=? e) eqn:Hexact.
  - apply Z.leb_le in Hexact. apply make_is_Number; [|lia].
    assert (Z.log2 (Zpos m) < 53) by lia.
    assert (Zpos m < 2 ^ 53) by (apply Z.log2_lt_pow2; lia). lia.
  - apply Z.leb_gt in Hexact. apply make_is_Number; [|lia].
    set (d := 2 ^ (e' - e)).
    assert (Hd : 0 < d) by (apply Z.pow_pos_nonneg; lia).
    assert (Hm : Zpos m < 2 ^ 53 * d).
    { unfold d. rewrite <- Z.pow_add_r by lia.
      apply Z.log2_lt_pow2; lia. }
    assert (Hq : 0 <= Zpos m / d < 2 ^ 53).
    { split; [apply Z.div_pos; lia|apply Z.div_lt_upper_bound; lia]. }
    unfold nearest_even.
    destruct (2 * (Zpos m mod d) <? d); [lia|].
    destruct (d <? 2 * (Zpos m mod d)); [lia|].
    destruct (Z.even (Zpos m / d)); lia.
Qed.

Lemma Number_of_Z_is_Number z : is_Number (Number_of_Z z) = true.
Proof. destruct z; [reflexivity| |]; apply round_pos_is_Number. Qed.

(** The sum of two Numbers is a Number. *)
Lemma Number_add_is_Number x y :
  is_Number x = true -> is_Number y = true ->
  is_Number (Number_add x y) = true.
Proof.
  intros Hx Hy.
  destruct x as [|sx|sx|sx mx ex], y as [|sy|sy|sy my ey];
    try reflexivity; try assumption.
  - simpl. destruct (Bool.eqb sx sy); reflexivity.
  - unfold Number_add.
    destruct (signed sx (Zpos mx * 2 ^ (ex - Z.min ex ey))
              + signed sy (Zpos my * 2 ^ (ey - Z.min ex ey)));
      [reflexivity| |]; apply round_pos_is_Number.
Qed.

(** The Number [1e40] absorbs every value of the counter of [mine]. *)
Lemma ten_to_40_absorbs k :
  1 <= k <= 2 ^ 53 -> Number_add Demo.ten_to_40 (Number_of_Z k) = Demo.ten_to_40.
Proof.
  intros Hk. destruct (Z.eq_dec k (2 ^ 53)) as [->|Hne]; [vm_compute; reflexivity|].
  destruct (Number_of_Z_exact k) as (m & e & -> & He & Hval); [lia|].
  assert (He52 : e <= 52).
  { destruct (Z.le_gt_cases e 52) as [|Hgt]; [assumption|].
    assert (2 ^ 53 <= 2 ^ e) by (apply Z.pow_le_mono_r; lia). nia. }
  assert (Hseed : Demo.ten_to_40 = Finite false 8271806125530277 80)
    by (vm_compute; reflexivity).
  rewrite Hseed. unfold Number_add, signed.
  rewrite Z.min_r by lia. rewrite Z.sub_diag, Z.pow_0_r, Z.mul_1_r.
  assert (Hm : Zpos m < 2 ^ (80 - e - 1)).
  { apply Z.lt_le_trans with (2 ^ (53 - e)).
    - apply (Z.mul_lt_mono_pos_r (2 ^ e)); [apply Z.pow_pos_nonneg; lia|].
      rewrite <- Z.pow_add_r by lia. replace (53 - e + e) with 53 by lia. lia.
    - apply Z.pow_le_mono_r; lia. }
  assert (Hpos : 0 < 2 ^ (80 - e)) by (apply Z.pow_pos_nonneg; lia).
  destruct (8271806125530277 * 2 ^ (80 - e) + Zpos m) as [|q|q] eqn:Hq; try lia.
  rewrite (round_pos_floor false q e 8271806125530277 80); [reflexivity| | | |].
  - split; [vm_compute; discriminate|vm_compute; reflexivity].
  - lia.
  - lia.
  - rewrite <- Hq. lia.
Qed.

Local Open Scope string_scope.

(** ** The search of [mine] *)

Section Mining.
Context `{!Crypto, !Host}.

Lemma solves_meets_target seed k :
  solves seed k = true <-> meets_target seed k.
Proof.
  unfold solves, meets_target, substr.
  rewrite String.eqb_eq. symmetry. apply (prefix_correct "0000").
Qed.

(** The counter after [solution += 1]: the next integer, up to 2^53, where
    it stays. *)
Lemma counter_next (s : Z) :
  (1 <= s <= 2 ^ 53)%Z ->
  Number_add (Number_of_Z s) (Number_of_Z 1) = Number_of_Z (Z.min (s + 1) (2 ^ 53)).
Proof.
  intros Hs. destruct (Z.eq_dec s (2 ^ 53)) as [->|Hne].
  - exact Number_add_one_top.
  - rewrite Z.min_l by lia. apply Number_add_one. lia.
Qed.

Lemma mine_loop_spinning seed w : forall fuel (s : Z),
  (1 <= s <= 2 ^ 53)%Z ->
  (forall k, s <= k <= 2 ^ 53 -> k < s + Z.of_nat fuel ->
     solves seed (Number_of_Z k) = false)%Z ->
  mine_loop fuel seed (Number_of_Z s) w = Spinning w.
Proof.
  induction fuel as [|fuel IH]; intros s Hs Hno; [reflexivity|].
  cbn [mine_loop]. rewrite Hno by lia.
  change (Number_of_Z 1) with (Number_of_Z 1%Z).
  rewrite (counter_next s Hs). apply IH; [lia|].
  intros k Hk Hfuel. apply Hno; lia.
Qed.

Lemma mine_loop_found seed w : forall d fuel (s : Z),
  (1 <= s)%Z -> (s + Z.of_nat d <= 2 ^ 53)%Z ->
  (forall k, s <= k < s + Z.of_nat d -> solves seed (Number_of_Z k) = false)%Z ->
  solves seed (Number_of_Z (s + Z.of_nat d)) = true ->
  (d < fuel)%nat ->
  mine_loop fuel seed (Number_of_Z s) w =
    Normal (Number_of_Z (s + Z.of_nat d))
      (mkWorld (instance w)
         (logged [Text ("Solved: "
                        ++ Number_toString (Number_of_Z (s + Z.of_nat d)))]
                 (host w))).
Proof.
  induction d as [|d IH]; intros fuel s Hs Hlim Hno Hyes Hfuel;
    (destruct fuel as [|fuel]; [lia|]); cbn [mine_loop].
  - replace (s + Z.of_nat 0)%Z with s in * by lia. rewrite Hyes. reflexivity.
  - rewrite Hno by lia.
    rewrite (counter_next s) by lia. rewrite Z.min_l by lia.
    replace (s + Z.of_nat (S d))%Z with (s + 1 + Z.of_nat d)%Z in * by lia.
    apply IH; [lia|lia| |assumption|lia].
    intros k Hk. apply Hno. lia.
Qed.

(** Below a solution there is a least one. *)
Lemma least_solution seed : forall d (s : Z),
  solves seed (Number_of_Z (s + Z.of_nat d)) = true ->
  exists r, (s <= r <= s + Z.of_nat d)%Z /\
    solves seed (Number_of_Z r) = true /\
    (forall k, s <= k < r -> solves seed (Number_of_Z k) = false)%Z.
Proof.
  induction d as [|d IH]; intros s Hyes.
  - exists s. replace (s + Z.of_nat 0)%Z with s in Hyes by lia.
    repeat split; [lia|lia|assumption|intros; lia].
  - destruct (solves seed (Number_of_Z s)) eqn:Hs.
    + exists s. repeat split; [lia|lia|assumption|intros; lia].
    + replace (s + Z.of_nat (S d))%Z with (s + 1 + Z.of_nat d)%Z in Hyes by lia.
      destruct (IH (s + 1)%Z Hyes) as (r & Hr & Hsol & Hmin).
      exists r. repeat split; [lia|lia|assumption|].
      intros k Hk. destruct (Z.eq_dec k s) as [->|Hne]; [assumption|].
      apply Hmin. lia.
Qed.

Lemma mine_loop_frame seed : forall fuel s w,
  instance (state_of (mine_loop fuel seed s w)) = instance w.
Proof.
  induction fuel as [|fuel IH]; intros s w; [reflexivity|].
  simpl. destruct (solves seed s); [reflexivity|apply IH].
Qed.

Lemma mine_unfold fuel seed w :
  mine fuel seed w =
    mine_loop fuel seed 1%Z
      (mkWorld (instance w) (logged [Text "mining..."] (host w))).
Proof. reflexivity. Qed.

Lemma mine_frame fuel seed w :
  instance (state_of (mine fuel seed w)) = instance w.
Proof. rewrite mine_unfold, mine_loop_frame. reflexivity. Qed.

Lemma mine_loop_console seed : forall fuel s w,
  exists rest,
    console (host (state_of (mine_loop fuel seed s w))) =
      (console (host w) ++ rest)%list.
Proof.
  induction fuel as [|fuel IH]; intros s w.
  - exists []. simpl. symmetry. apply app_nil_r.
  - simpl. destruct (solves seed s); [|apply IH].
    eexists. reflexivity.
Qed.

Lemma mine_console fuel seed w :
  exists rest,
    console (host (state_of (mine fuel seed w))) =
      (console (host w) ++ Text "mining..." :: rest)%list.
Proof.
  rewrite mine_unfold.
  destruct (mine_loop_console seed fuel 1%Z
              (mkWorld (instance w) (logged [Text "mining..."] (host w))))
    as [rest Hrest].
  exists rest. rewrite Hrest. simpl. rewrite <- app_assoc. reflexivity.
Qed.

End Mining.

(** ** The chain only grows, by linked blocks *)

Section Invariant.
Context `{!Crypto, !Host}.

Lemma linked_singleton (g : Block) : linked [g].
Proof. intros i b Hb. destruct i; discriminate Hb. Qed.

Lemma linked_snoc (l : list Block) (tail b : Block) :
  linked l -> last l = Some tail -> prevHash b = hash tail ->
  linked (l ++ [b]).
Proof.
  intros Hl Htail Hb i b' Hi.
  destruct (Nat.lt_trichotomy (S i) (length l)) as [Hlt|[Heq|Hgt]].
  - rewrite lookup_app_l in Hi by lia.
    destruct (Hl i b' Hi) as (p & Hp & Hh).
    exists p. split; [|exact Hh]. rewrite lookup_app_l by lia. exact Hp.
  - rewrite lookup_app_r in Hi by lia.
    replace (S i - length l)%nat with 0%nat in Hi by lia.
    injection Hi as <-.
    exists tail. split; [|exact Hb].
    rewrite lookup_app_l by lia.
    rewrite last_lookup in Htail.
    replace i with (pred (length l)) by lia. exact Htail.
  - rewrite lookup_app_r in Hi by lia.
    destruct (S i - length l)%nat as [|j] eqn:Hj; [lia|discriminate Hi].
Qed.

Lemma linked_cons (p b : Block) (rest : list Block) :
  linked (p :: b :: rest) <-> prevHash b = hash p /\ linked (b :: rest).
Proof.
  split.
  - intros Hl. split.
    + destruct (Hl 0%nat b eq_refl) as (q & Hq & Hh).
      injection Hq as <-. exact Hh.
    + intros i b' Hi. exact (Hl (S i) b' Hi).
  - intros [Hh Hl] i b' Hi. destruct i as [|i].
    + injection Hi as <-. exists p. split; [reflexivity|exact Hh].
    + exact (Hl i b' Hi).
Qed.

Lemma links_ok_linked (l : list Block) : links_ok l = true <-> linked l.
Proof.
  induction l as [|p l IH].
  - split; [|reflexivity]. intros _ i b Hb. discriminate Hb.
  - destruct l as [|b rest].
    + split; [|reflexivity]. intros _. apply linked_singleton.
    + change (links_ok (p :: b :: rest))
        with (String.eqb (prevHash b) (hash p) && links_ok (b :: rest)).
      rewrite Bool.andb_true_iff, String.eqb_eq, IH, linked_cons.
      reflexivity.
Qed.

Lemma step_grows w w' :
  step w w' ->
  chain (instance w') = chain (instance w) \/
  exists tail b,
    last (chain (instance w)) = Some tail /\ prevHash b = hash tail /\
    chain (instance w') = (chain (instance w) ++ [b])%list.
Proof.
  intros [tx key sig w0|fuel seed w0].
  - destruct (addBlock_cases tx key sig w0) as [->|(tail & Hl & _ & ->)].
    + left. reflexivity.
    + right. exists tail, (built (hash tail) tx (host w0)).
      rewrite <- lastBlock_last. auto.
  - left. rewrite mine_frame. reflexivity.
Qed.

Lemma step_well_formed g w w' :
  step w w' ->
  well_formed g (chain (instance w)) -> well_formed g (chain (instance w')).
Proof.
  intros Hstep [Hg Hl].
  destruct (step_grows w w' Hstep) as [->|(tail & b & Ht & Hb & ->)].
  - split; assumption.
  - split.
    + rewrite lookup_app_l; [exact Hg|]. apply lookup_lt_Some in Hg. exact Hg.
    + eapply linked_snoc; eassumption.
Qed.

Lemma steps_well_formed g w w' :
  rtc step w w' ->
  well_formed g (chain (instance w)) -> well_formed g (chain (instance w')).
Proof.
  induction 1 as [|w1 w2 w3 H12 _ IH]; [auto|].
  intros Hwf. apply IH. eapply step_well_formed; eassumption.
Qed.

Lemma boot_well_formed h w0 :
  boot h = Some w0 ->
  w0 = mkWorld (mkChain [built EmptyString genesis_transaction h]) (after_build h).
Proof. rewrite boot_total. intros [= <-]. reflexivity. Qed.

Lemma reachable_well_formed w0 w :
  reachable w0 w ->
  exists g, chain (instance w0) = [g] /\
    prevHash g = EmptyString /\ transaction g = genesis_transaction /\
    well_formed g (chain (instance w)).
Proof.
  intros [[h Hboot] Hsteps].
  apply boot_well_formed in Hboot. subst w0.
  exists (built EmptyString genesis_transaction h).
  split; [reflexivity|]. split; [reflexivity|]. split; [reflexivity|].
  apply (steps_well_formed _ _ _ Hsteps).
  split; [reflexivity|apply linked_singleton].
Qed.

Lemma reachable_nonempty w0 w :
  reachable w0 w -> (1 <= length (chain (instance w)))%nat.
Proof.
  intros Hr. destruct (reachable_well_formed _ _ Hr) as (g & _ & _ & _ & Hg & _).
  apply lookup_lt_Some in Hg. lia.
Qed.

(** A wallet that sends money keeps the state among the reachable ones. *)
Lemma sendMoney_reachable this amt payeePublicKey w0 w :
  reachable w0 w ->
  reachable w0 (state_of (sendMoney this amt payeePublicKey w)).
Proof.
  intros [Hboot Hsteps].
  destruct (sendMoney_cases this amt payeePublicKey w) as [->|[sig ->]].
  - split; assumption.
  - split; [assumption|].
    eapply rtc_r; [exact Hsteps|apply step_addBlock].
Qed.

End Invariant.

(** ** The reference digests on known inputs *)

Example md5_abc :
  Digest.md5_hex "abc" = "900150983cd24fb0d6963f7d28e17f72".
Proof. vm_compute. reflexivity. Qed.

Example md5_two_blocks :
  Digest.md5_hex
    "12345678901234567890123456789012345678901234567890123456789012345678901234567890"
  = "57edf4a22be3c955ac49da2e2107b67a".
Proof. vm_compute. reflexivity. Qed.

Example sha256_abc :
  Digest.sha256_hex "abc"
  = "ba7816bf8f01cfea414140de5dae2223b00361a396177a9cb410ff61f20015ad".
Proof. vm_compute. reflexivity. Qed.

Example sha256_two_blocks :
  Digest.sha256_hex "abcdbcdecdefdefgefghfghighijhijkijkljklmklmnlmnomnopnopq"
  = "248d6a61d20638b8e5c026930c3e6039a33ce45964ff2167f6ecedd419db06c1".
Proof. vm_compute. reflexivity. Qed.

(** ** Numbers on known values *)

Example toString_2_pow_60 :
  Number_toString (Number_of_Z (2 ^ 60)) = "1152921504606847000".
Proof. vm_compute. reflexivity. Qed.

Example toString_1e21 :
  Number_toString (Number_of_Z (10 ^ 21)) = "1e+21"
  /\ Number_toString (Number_of_Z (10 ^ 21 - 10 ^ 6)) = "999999999999999000000".
Proof. vm_compute. split; reflexivity. Qed.

Example toString_small :
  Number_toString (Number_of_decimal 1 (-7)) = "1e-7"
  /\ Number_toString (Number_of_decimal 1 (-6)) = "0.000001"
  /\ Number_toString (Number_of_decimal 5 (-324)) = "5e-324"
  /\ Number_toString (Number_of_decimal (-1255) (-2)) = "-12.55".
Proof. vm_compute. repeat split. Qed.

Example one_tenth_plus_two_tenths :
  Number_toString (Number_add (Number_of_decimal 1 (-1)) (Number_of_decimal 2 (-1)))
  = "0.30000000000000004".
Proof. vm_compute. reflexivity. Qed.

(** Above 2^53 a sum is rounded, ties to even, and 2^53 + 1 is 2^53. *)
Example sum_above_2_pow_53 :
  Number_toString (Number_add (Number_of_Z 9007199254979010) (Number_of_Z 1))
  = "9007199254979012"
  /\ Number_add (Number_of_Z (2 ^ 53)) (Number_of_Z 1) = Number_of_Z (2 ^ 53).
Proof. vm_compute. split; reflexivity. Qed.

Example JSON_number_special :
  JSON_number NaN = "null" /\ JSON_number (Infinity true) = "null"
  /\ JSON_number (Zero true) = "0" /\ JSON_number (Number_of_Z (-7)) = "-7".
Proof. vm_compute. repeat split. Qed.

(** The sum agrees with [SFadd] of the standard library on these. *)
Example Number_add_agrees_with_SFadd :
  Forall (fun p => to_spec_float (Number_add (fst p) (snd p))
                   = SFadd 53 1024 (to_spec_float (fst p)) (to_spec_float (snd p)))
    [(Number_of_Z 1, Number_of_Z 2);
     (Number_of_Z (10 ^ 40), Number_of_Z 1);
     (Number_of_Z (2 ^ 53), Number_of_Z 1);
     (Number_of_Z 9007199254979010, Number_of_Z 1);
     (Number_of_decimal 1 (-1), Number_of_decimal 2 (-1));
     (Finite false 1 (-1074), Finite true 1 (-1074));
     (Finite false 3 (-1074), Finite false 5 (-1074));
     (Finite false 9007199254740991 971, Finite false 1 970);
     (Finite false 9007199254740991 971, Finite false 1 969);
     (Number_of_Z (-5), Number_of_Z 3);
     (Zero true, Zero true); (Zero true, Zero false);
     (Infinity true, Infinity false); (Infinity true, Number_of_Z 1);
     (NaN, Number_of_Z 1)].
Proof. repeat constructor. Qed.

(** ** The program on the example runtime *)

Example genesis_rendering :
  JSON_Block (@built Demo.host EmptyString genesis_transaction Demo.h0)
  = "{" ++ JSON_property "prevHash" (JSON_string EmptyString) ++ ","
        ++ JSON_property "transaction"
             ("{" ++ JSON_property "amount" "500" ++ ","
                  ++ JSON_property "payer" (JSON_string "initial") ++ ","
                  ++ JSON_property "payee" (JSON_string "Daniel") ++ "}") ++ ","
        ++ JSON_property "ts" "1700000000000" ++ ","
        ++ JSON_property "nonce" "123456789" ++ "}".
Proof. vm_compute. reflexivity. Qed.

Example boot_demo : @boot Demo.host Demo.h0 = Some Demo.w0.
Proof. reflexivity. Qed.

(** With seed 5326 the digests of 5327 and 5328 miss the target and the
    digest of 5329 meets it. *)
Example mine_5326 :
  @mine Demo.crypto 5 5326 Demo.w0 = Normal (Number_of_Z 3) (mined 3 Demo.w0).
Proof. vm_compute. reflexivity. Qed.

(** With seed 9007199254979010 the first sum is rounded to
    9007199254979012, whose digest meets the target at the first turn. *)
Example mine_above_2_pow_53 :
  @mine Demo.crypto 5 9007199254979010 Demo.w0
  = Normal (Number_of_Z 1) (mined 1 Demo.w0).
Proof. vm_compute. reflexivity. Qed.

Example mine_5326_short :
  @mine Demo.crypto 2 5326 Demo.w0 =
    Spinning (mkWorld (instance Demo.w0) (logged [Text "mining..."] (host Demo.w0))).
Proof. vm_compute. reflexivity. Qed.

(** The statements at the end of the file: three wallets, three payments,
    a chain of four blocks whose links all check. *)
Example script_demo :
  exists w,
    @script Demo.crypto Demo.host Demo.w0 = Normal tt w /\
    map (fun b => amount (transaction b)) (chain (instance w))
      = map Number_of_Z [500; 50; 23; 5]%Z /\
    @links_ok Demo.crypto (chain (instance w)) = true /\
    console (host w) = [Inspected (instance w)].
Proof.
  eexists. split; [vm_compute; reflexivity|].
  vm_compute. repeat split.
Qed.

(** A signature by Alice is refused under Bob's key, and a string that is
    no key makes the verifier throw. *)
Example stolen_signature :
  @addBlock Demo.crypto Demo.host Demo.tx_ab (publicKey Demo.bob) Demo.sig_ab Demo.w1
  = Normal tt Demo.w1.
Proof. vm_compute. reflexivity. Qed.

Example unparsable_key :
  @addBlock Demo.crypto Demo.host Demo.tx_ab "initial" Demo.sig_ab Demo.w0
  = Throw CryptoError Demo.w0.
Proof. vm_compute. reflexivity. Qed.

(** ** The claims *)

Section Claims.
Context `{!Crypto, !Host}.

(** C1. When the signature verifies under the sender's public key,
    [addBlock] returns normally, the chain is one block longer, and the
    block at its end carries the transaction passed in and, as [prevHash],
    the hash of the block that was last before the call. *)
Theorem addBlock_appends_linked_block tx key sig w tail :
  lastBlock (instance w) = Some tail ->
  verify (Transaction_toString tx) key sig = inr true ->
  exists w' b,
    addBlock tx key sig w = Normal tt w' /\
    chain (instance w') = (chain (instance w) ++ [b])%list /\
    length (chain (instance w')) = S (length (chain (instance w))) /\
    lastBlock (instance w') = Some b /\
    prevHash b = hash tail /\
    transaction b = tx.
Proof.
  intros Htail Hvalid.
  eexists _, (built (hash tail) tx (host w)).
  split; [apply (addBlock_valid _ _ _ _ tail Hvalid Htail)|].
  simpl. split; [reflexivity|].
  split; [rewrite length_app; simpl; lia|].
  split; [apply lastBlock_snoc|].
  split; reflexivity.
Qed.

(** C2. When verification returns false, [addBlock] returns normally and
    the state is the one before the call: no block is added, the blocks
    present are the same, nothing is thrown. *)
Theorem addBlock_rejects_silently tx key sig w :
  verify (Transaction_toString tx) key sig = inr false ->
  addBlock tx key sig w = Normal tt w /\
  chain (instance (state_of (addBlock tx key sig w))) = chain (instance w) /\
  length (chain (instance (state_of (addBlock tx key sig w)))) =
    length (chain (instance w)).
Proof.
  intros Hinvalid. rewrite (addBlock_invalid _ _ _ _ Hinvalid).
  repeat split.
Qed.

(** C3. In every state reached from the static initialiser by calls of
    [addBlock] and [mine], the chain has at least one block, the block at
    index 0 is the genesis block built by the initialiser, and every block
    at an index [i > 0] has as [prevHash] the hash, computed again, of the
    block at [i - 1]. *)
Theorem reachable_chain_is_linked w0 w :
  reachable w0 w ->
  (1 <= length (chain (instance w)))%nat /\
  (exists g,
     chain (instance w0) = [g] /\
     chain (instance w) !! 0%nat = Some g /\
     prevHash g = EmptyString /\
     transaction g = mkTransaction 500 "initial" "Daniel") /\
  (forall i b, (0 < i)%nat ->
     chain (instance w) !! i = Some b ->
     exists p, chain (instance w) !! (i - 1)%nat = Some p /\
               prevHash b = hash p).
Proof.
  intros Hr.
  destruct (reachable_well_formed _ _ Hr) as (g & Hg0 & Hprev & Htx & Hg & Hl).
  split; [apply (reachable_nonempty _ _ Hr)|].
  split.
  - exists g. auto.
  - intros i b Hi Hb. destruct i as [|i]; [lia|].
    replace (S i - 1)%nat with i by lia. apply Hl. exact Hb.
Qed.

(** C4, as the code has it. The counter of [mine] is a Number: it takes
    the integers from 1 to 2^53 and stays there. When some integer [s] from
    1 to 2^53 makes the digest of the string of [seed + s] begin with
    "0000", [mine] returns, given enough turns of its loop, the least such
    integer; with fewer turns than that integer the loop is still running.
    The seed is any Number and the sum is the sum of Numbers. *)
Theorem mine_returns_least_reachable_solution (seed : number) (s : Z) :
  (1 <= s <= 2 ^ 53)%Z ->
  meets_target seed (Number_of_Z s) ->
  exists r : Z,
    (1 <= r <= s)%Z /\
    meets_target seed (Number_of_Z r) /\
    (forall k : Z, (1 <= k < r)%Z -> ~ meets_target seed (Number_of_Z k)) /\
    (forall fuel w, (Z.to_nat r <= fuel)%nat ->
       mine fuel seed w = Normal (Number_of_Z r) (mined (Number_of_Z r) w)) /\
    (forall fuel w, (fuel < Z.to_nat r)%nat ->
       exists w', mine fuel seed w = Spinning w').
Proof.
  intros Hs Hmeets. apply solves_meets_target in Hmeets.
  destruct (least_solution seed (Z.to_nat (s - 1)) 1%Z) as (r & Hr & Hsol & Hmin).
  { replace (1 + Z.of_nat (Z.to_nat (s - 1)))%Z with s by lia. exact Hmeets. }
  exists r. split; [lia|].
  split; [apply solves_meets_target, Hsol|].
  split.
  { intros k Hk Hmk. apply solves_meets_target in Hmk.
    rewrite (Hmin k Hk) in Hmk. discriminate Hmk. }
  split.
  - intros fuel w Hfuel. rewrite mine_unfold.
    change (Number_of_Z 1) with (Number_of_Z 1%Z).
    rewrite (mine_loop_found seed _ (Z.to_nat (r - 1)) fuel 1%Z).
    + replace (1 + Z.of_nat (Z.to_nat (r - 1)))%Z with r by lia.
      unfold mined, logged. simpl. rewrite <- app_assoc. reflexivity.
    + lia.
    + lia.
    + intros k Hk. apply Hmin. lia.
    + replace (1 + Z.of_nat (Z.to_nat (r - 1)))%Z with r by lia. exact Hsol.
    + lia.
  - intros fuel w Hfuel. eexists. rewrite mine_unfold.
    apply mine_loop_spinning; [lia|].
    intros k Hk Hturns. apply Hmin. lia.
Qed.

(** C5. [addBlock] does not run the search of [mine]: it completes
    without ever being left inside a loop, writes nothing to the console
    (where [mine] announces itself first thing), and behaves the same
    whatever the MD5 digest is. And [mine], for any seed and at any point
    of its search, leaves [Chain.instance] as it was. *)
Theorem proof_of_work_is_detached :
  (forall tx key sig w,
     (forall w', addBlock tx key sig w <> Spinning w') /\
     console (host (state_of (addBlock tx key sig w))) = console (host w)) /\
  (forall sha md5 md5' vfy sgn tx key sig w,
     @addBlock (Build_Crypto sha md5 vfy sgn) _ tx key sig w =
     @addBlock (Build_Crypto sha md5' vfy sgn) _ tx key sig w) /\
  (forall fuel seed w,
     instance (state_of (mine fuel seed w)) = instance w /\
     chain (instance (state_of (mine fuel seed w))) = chain (instance w) /\
     exists rest,
       console (host (state_of (mine fuel seed w))) =
         (console (host w) ++ Text "mining..." :: rest)%list).
Proof.
  split; [|split].
  - intros tx key sig w. split.
    + intros w' Hspin.
      destruct (verify (Transaction_toString tx) key sig) as [e|[|]] eqn:Hv.
      * rewrite (addBlock_throws _ _ _ _ e Hv) in Hspin. discriminate Hspin.
      * destruct (lastBlock (instance w)) as [tail|] eqn:Hl.
        -- rewrite (addBlock_valid _ _ _ _ tail Hv Hl) in Hspin.
           discriminate Hspin.
        -- rewrite (addBlock_undefined _ _ _ _ Hv Hl) in Hspin.
           discriminate Hspin.
      * rewrite (addBlock_invalid _ _ _ _ Hv) in Hspin. discriminate Hspin.
    + destruct (addBlock_cases tx key sig w) as [->|(tail & _ & _ & ->)];
        reflexivity.
  - intros. reflexivity.
  - intros fuel seed w. rewrite mine_frame.
    split; [reflexivity|]. split; [reflexivity|]. apply mine_console.
Qed.

(** C6. The hash of a block is a function of its fields alone: two blocks
    with the same [prevHash], the same transaction fields, the same [ts]
    and the same [nonce] have the same hash, which is the SHA-256 digest
    of the JSON rendering of those fields; in particular reading the hash
    of one block twice gives the same string. *)
Theorem hash_is_a_function_of_the_fields (b1 b2 : Block) :
  prevHash b1 = prevHash b2 ->
  amount (transaction b1) = amount (transaction b2) ->
  payer (transaction b1) = payer (transaction b2) ->
  payee (transaction b1) = payee (transaction b2) ->
  ts b1 = ts b2 ->
  nonce b1 = nonce b2 ->
  hash b1 = hash b2 /\
  hash b1 =
    SHA256_hex
      (JSON_Block
         (mkBlock (prevHash b2)
            (mkTransaction (amount (transaction b2)) (payer (transaction b2))
               (payee (transaction b2)))
            (ts b2) (nonce b2))).
Proof.
  destruct b1 as [p1 [a1 r1 e1] t1 n1], b2 as [p2 [a2 r2 e2] t2 n2]. simpl.
  intros -> -> -> -> -> ->. split; reflexivity.
Qed.

(** C7. The constructor of [Chain] returns a chain of exactly one block,
    whose [prevHash] is the empty string and whose transaction has amount
    500, payer "initial" and payee "Daniel"; that chain is what the static
    initialiser stores in [Chain.instance]. *)
Theorem Chain_new_builds_genesis (h : HostState) :
  exists g h',
    Chain_new h = Normal (mkChain [g]) h' /\
    boot h = Some (mkWorld (mkChain [g]) h') /\
    length (chain (mkChain [g])) = 1%nat /\
    prevHash g = EmptyString /\
    amount (transaction g) = 500%Z /\
    payer (transaction g) = "initial" /\
    payee (transaction g) = "Daniel".
Proof.
  exists (built EmptyString genesis_transaction h), (after_build h).
  repeat split.
Qed.


(** C9. [lastBlock] is the last element of the chain and is [undefined]
    only on an empty chain. In every reachable state the index
    [chain.length - 1] lies within the array and [lastBlock] returns a
    block. *)
Theorem lastBlock_is_defined w0 w :
  reachable w0 w ->
  (0 <= Z.of_nat (length (chain (instance w))) - 1
     < Z.of_nat (length (chain (instance w))))%Z /\
  (exists b, lastBlock (instance w) = Some b /\
             last (chain (instance w)) = Some b) /\
  (forall c, lastBlock c = None -> chain c = []).
Proof.
  intros Hr. pose proof (reachable_nonempty _ _ Hr) as Hlen.
  split; [lia|]. split.
  - destruct (lastBlock (instance w)) as [b|] eqn:Hl.
    + exists b. split; [reflexivity|]. rewrite <- lastBlock_last. exact Hl.
    + apply lastBlock_None in Hl. rewrite Hl in Hlen. simpl in Hlen. lia.
  - intros c. apply lastBlock_None.
Qed.

(** C10. Whether [addBlock] appends is decided by the verifier's answer
    alone: on a chain with a last block, the transaction is appended exactly
    when the signature verifies under the key passed in, whatever the payer
    named in the transaction and whatever the amount. *)
Theorem addBlock_is_gated_by_the_signature_alone tx key sig w tail :
  lastBlock (instance w) = Some tail ->
  (verify (Transaction_toString tx) key sig = inr true <->
   exists b,
     transaction b = tx /\
     chain (instance (state_of (addBlock tx key sig w))) =
       (chain (instance w) ++ [b])%list).
Proof.
  intros Htail. split.
  - intros Hvalid. exists (built (hash tail) tx (host w)).
    rewrite (addBlock_valid _ _ _ _ tail Hvalid Htail). split; reflexivity.
  - intros (b & _ & Hchain).
    destruct (addBlock_cases tx key sig w) as [Hsame|(_ & _ & Hvalid & _)];
      [|exact Hvalid].
    rewrite Hsame in Hchain.
    apply (f_equal (@length Block)) in Hchain.
    rewrite length_app in Hchain. simpl in Hchain. lia.
Qed.

End Claims.

(** ** The theorems at work on the example runtime *)

Lemma demo_reachable_w2 : @reachable Demo.crypto Demo.host Demo.w0 Demo.w2.
Proof.
  split; [exists Demo.h0; reflexivity|].
  apply (rtc_l _ _ Demo.w1).
  - exact (@step_addBlock Demo.crypto Demo.host
             Demo.tx_ab (publicKey Demo.alice) Demo.sig_ab Demo.w0).
  - apply (rtc_l _ _ Demo.w2); [|apply rtc_refl].
    exact (@step_mine Demo.crypto Demo.host 2 5326%Z Demo.w1).
Defined.

Lemma addBlock_appends_linked_block_witness :
  lastBlock (instance Demo.w0) = Some Demo.genesis /\
  @verify Demo.crypto (Transaction_toString Demo.tx_ab)
     (publicKey Demo.alice) Demo.sig_ab = inr true /\
  exists w' b,
    @addBlock Demo.crypto Demo.host Demo.tx_ab (publicKey Demo.alice)
       Demo.sig_ab Demo.w0 = Normal tt w' /\
    chain (instance w') = (chain (instance Demo.w0) ++ [b])%list /\
    length (chain (instance w')) = S (length (chain (instance Demo.w0))) /\
    lastBlock (instance w') = Some b /\
    prevHash b = @hash Demo.crypto Demo.genesis /\
    transaction b = Demo.tx_ab.
Proof.
  assert (Htail : lastBlock (instance Demo.w0) = Some Demo.genesis)
    by reflexivity.
  assert (Hvalid : @verify Demo.crypto (Transaction_toString Demo.tx_ab)
                     (publicKey Demo.alice) Demo.sig_ab = inr true)
    by (vm_compute; reflexivity).
  split; [exact Htail|]. split; [exact Hvalid|].
  exact (@addBlock_appends_linked_block Demo.crypto Demo.host
           Demo.tx_ab (publicKey Demo.alice) Demo.sig_ab Demo.w0 Demo.genesis
           Htail Hvalid).
Defined.

Lemma addBlock_rejects_silently_witness :
  @verify Demo.crypto (Transaction_toString Demo.tx_ab)
     (publicKey Demo.bob) Demo.sig_ab = inr false /\
  @addBlock Demo.crypto Demo.host Demo.tx_ab (publicKey Demo.bob)
     Demo.sig_ab Demo.w1 = Normal tt Demo.w1.
Proof.
  assert (Hinvalid : @verify Demo.crypto (Transaction_toString Demo.tx_ab)
                       (publicKey Demo.bob) Demo.sig_ab = inr false)
    by (vm_compute; reflexivity).
  split; [exact Hinvalid|].
  exact (proj1 (@addBlock_rejects_silently Demo.crypto Demo.host
                  Demo.tx_ab (publicKey Demo.bob) Demo.sig_ab Demo.w1 Hinvalid)).
Defined.

Lemma reachable_chain_is_linked_witness :
  (1 <= length (chain (instance Demo.w2)))%nat /\
  (exists g,
     chain (instance Demo.w0) = [g] /\
     chain (instance Demo.w2) !! 0%nat = Some g /\
     prevHash g = EmptyString /\
     transaction g = mkTransaction 500 "initial" "Daniel") /\
  (forall i b, (0 < i)%nat ->
     chain (instance Demo.w2) !! i = Some b ->
     exists p, chain (instance Demo.w2) !! (i - 1)%nat = Some p /\
               prevHash b = @hash Demo.crypto p).
Proof.
  exact (@reachable_chain_is_linked Demo.crypto Demo.host Demo.w0 Demo.w2
           demo_reachable_w2).
Defined.

Lemma mine_returns_least_reachable_solution_witness :
  @meets_target Demo.crypto 5326 (Number_of_Z 3) /\
  exists r : Z,
    (1 <= r <= 3)%Z /\
    @meets_target Demo.crypto 5326 (Number_of_Z r) /\
    (forall k : Z, (1 <= k < r)%Z ->
       ~ @meets_target Demo.crypto 5326 (Number_of_Z k)) /\
    (forall fuel w, (Z.to_nat r <= fuel)%nat ->
       @mine Demo.crypto fuel 5326 w
         = Normal (Number_of_Z r) (mined (Number_of_Z r) w)) /\
    (forall fuel w, (fuel < Z.to_nat r)%nat ->
       exists w', @mine Demo.crypto fuel 5326 w = Spinning w').
Proof.
  assert (Hmeets : @meets_target Demo.crypto 5326 (Number_of_Z 3))
    by (vm_compute; reflexivity).
  split; [exact Hmeets|].
  apply (@mine_returns_least_reachable_solution Demo.crypto 5326 3%Z);
    [vm_compute; split; discriminate|exact Hmeets].
Defined.

(** C4 as stated fails at the seed [1e40], with the MD5 of the reference.
    The integer [Demo.far_solution] is a Number, and with it the sum prints
    as "1.62914e+40", whose digest begins with "0000": a solution exists.
    But every value the counter takes is absorbed by the seed, the string
    hashed is "1e+40" at every turn, and [mine] never returns. *)
Lemma mine_misses_a_solution_beyond_reach :
  (1 <= Demo.far_solution)%Z /\
  Number_of_Z Demo.far_solution = Finite false 5204124105816119 80 /\
  (5204124105816119 * 2 ^ 80 = Demo.far_solution)%Z /\
  Number_toString (Number_add Demo.ten_to_40 (Number_of_Z Demo.far_solution))
    = "1.62914e+40" /\
  @meets_target Demo.crypto Demo.ten_to_40 (Number_of_Z Demo.far_solution) /\
  forall fuel,
    @mine Demo.crypto fuel Demo.ten_to_40 Demo.w0 =
      Spinning (mkWorld (instance Demo.w0)
                        (logged [Text "mining..."] (host Demo.w0))).
Proof.
  split; [vm_compute; discriminate|].
  split; [vm_compute; reflexivity|].
  split; [vm_compute; reflexivity|].
  split; [vm_compute; reflexivity|].
  split; [vm_compute; reflexivity|].
  intros fuel. rewrite mine_unfold.
  change (Number_of_Z 1) with (Number_of_Z 1%Z).
  apply mine_loop_spinning; [vm_compute; split; discriminate|].
  intros k Hk _. unfold solves.
  rewrite ten_to_40_absorbs by lia. vm_compute. reflexivity.
Qed.

Lemma hash_is_a_function_of_the_fields_witness :
  @hash Demo.crypto Demo.genesis = @hash Demo.crypto Demo.genesis_literal /\
  @hash Demo.crypto Demo.genesis =
    @SHA256_hex Demo.crypto
      (JSON_Block
         (mkBlock (prevHash Demo.genesis_literal)
            (mkTransaction (amount (transaction Demo.genesis_literal))
               (payer (transaction Demo.genesis_literal))
               (payee (transaction Demo.genesis_literal)))
            (ts Demo.genesis_literal) (nonce Demo.genesis_literal))).
Proof.
  apply (@hash_is_a_function_of_the_fields Demo.crypto
           Demo.genesis Demo.genesis_literal); reflexivity.
Defined.


Lemma lastBlock_is_defined_witness :
  (0 <= Z.of_nat (length (chain (instance Demo.w2))) - 1
     < Z.of_nat (length (chain (instance Demo.w2))))%Z /\
  (exists b, lastBlock (instance Demo.w2) = Some b /\
             last (chain (instance Demo.w2)) = Some b) /\
  (forall c, lastBlock c = None -> chain c = []).
Proof.
  exact (@lastBlock_is_defined Demo.crypto Demo.host Demo.w0 Demo.w2
           demo_reachable_w2).
Defined.

Lemma addBlock_is_gated_by_the_signature_alone_witness :
  payer Demo.tx_forged <> publicKey Demo.alice /\
  amount Demo.tx_forged = Number_of_Z (-7) /\
  exists b,
    transaction b = Demo.tx_forged /\
    chain (instance (state_of
       (@addBlock Demo.crypto Demo.host Demo.tx_forged (publicKey Demo.alice)
          Demo.sig_forged Demo.w1))) =
      (chain (instance Demo.w1) ++ [b])%list.
Proof.
  split; [discriminate|]. split; [reflexivity|].
  apply (@addBlock_is_gated_by_the_signature_alone Demo.crypto Demo.host
           Demo.tx_forged (publicKey Demo.alice) Demo.sig_forged Demo.w1
           (@built Demo.host (@hash Demo.crypto Demo.genesis) Demo.tx_ab
              (host Demo.w0))).
  - vm_compute. reflexivity.
  - vm_compute. reflexivity.
Defined.

(** ** Renderings can be read back *)

Lemma append_assoc (a b c : string) : (a ++ b) ++ c = a ++ (b ++ c).
Proof. induction a as [|x a IH]; simpl; [reflexivity|rewrite IH; reflexivity]. Qed.

Lemma append_inj_l (a b c : string) : a ++ b = a ++ c -> b = c.
Proof. induction a as [|x a IH]; simpl; [auto|]. intros [= H]. auto. Qed.

Lemma JSON_unquote_quote_char c rest :
  JSON_unquote_char (JSON_quote_char c ++ rest) = Some (c, rest).
Proof.
  destruct c as [[] [] [] [] [] [] [] []]; reflexivity.
Qed.

Lemma JSON_quote_body_delimited : forall s1 s2 r1 r2,
  JSON_quote_body s1 ++ String quotation_mark r1 =
  JSON_quote_body s2 ++ String quotation_mark r2 ->
  s1 = s2 /\ r1 = r2.
Proof.
  induction s1 as [|c1 s1 IH]; intros [|c2 s2] r1 r2 Heq.
  - injection Heq as ->. auto.
  - apply (f_equal JSON_unquote_char) in Heq. simpl JSON_quote_body in Heq.
    rewrite append_assoc, JSON_unquote_quote_char in Heq. discriminate Heq.
  - apply (f_equal JSON_unquote_char) in Heq. simpl JSON_quote_body in Heq.
    rewrite append_assoc, JSON_unquote_quote_char in Heq. discriminate Heq.
  - apply (f_equal JSON_unquote_char) in Heq. simpl JSON_quote_body in Heq.
    rewrite !append_assoc, !JSON_unquote_quote_char in Heq.
    injection Heq as -> Heq. destruct (IH _ _ _ Heq) as [-> ->]. auto.
Qed.

Lemma JSON_string_delimited s1 s2 r1 r2 :
  JSON_string s1 ++ r1 = JSON_string s2 ++ r2 -> s1 = s2 /\ r1 = r2.
Proof.
  unfold JSON_string, str1. rewrite !append_assoc. simpl.
  intros [= Heq]. apply JSON_quote_body_delimited. exact Heq.
Qed.

Lemma all_chars_delimited P : forall s1 s2 c1 c2 r1 r2,
  all_chars P s1 = true -> all_chars P s2 = true ->
  P c1 = false -> P c2 = false ->
  s1 ++ String c1 r1 = s2 ++ String c2 r2 ->
  s1 = s2 /\ c1 = c2 /\ r1 = r2.
Proof.
  induction s1 as [|a1 s1 IH]; intros [|a2 s2] c1 c2 r1 r2 H1 H2 Hc1 Hc2 Heq;
    simpl in *.
  - injection Heq as -> ->. auto.
  - injection Heq as -> _. apply andb_prop in H2 as [H2 _]. congruence.
  - injection Heq as -> _. apply andb_prop in H1 as [H1 _]. congruence.
  - injection Heq as -> Heq.
    apply andb_prop in H1 as [_ H1]. apply andb_prop in H2 as [_ H2].
    destruct (IH _ _ _ _ _ H1 H2 Hc1 Hc2 Heq) as (-> & -> & ->). auto.
Qed.

Lemma no_separator_app a b :
  no_separator a = true -> no_separator b = true -> no_separator (a ++ b) = true.
Proof.
  unfold no_separator. induction a as [|c a IH]; simpl; [auto|].
  intros Ha Hb. apply andb_prop in Ha as [Hc Ha]. rewrite Hc. simpl. auto.
Qed.

Lemma no_separator_substring : forall s i j,
  no_separator s = true -> no_separator (substring i j s) = true.
Proof.
  unfold no_separator.
  induction s as [|c s IH]; intros i j Hs; [destruct i, j; reflexivity|].
  simpl in Hs. apply andb_prop in Hs as [Hc Hs].
  destruct i as [|i]; simpl.
  - destruct j as [|j]; [reflexivity|]. simpl. rewrite Hc. simpl. apply IH, Hs.
  - apply IH, Hs.
Qed.

Lemma no_separator_uint d : no_separator (NilEmpty.string_of_uint d) = true.
Proof. unfold no_separator. induction d; simpl; auto. Qed.

Lemma no_separator_digits z : no_separator (digits z) = true.
Proof.
  unfold digits, NilZero.string_of_uint.
  destruct (N.to_uint (Z.to_N z)); try reflexivity;
    apply (no_separator_uint (_ u)).
Qed.

Lemma no_separator_zeros n : no_separator (zeros n) = true.
Proof. unfold no_separator. induction n; simpl; auto. Qed.

Lemma no_separator_layout s k n : no_separator (layout s k n) = true.
Proof.
  unfold layout.
  repeat match goal with
  | |- no_separator (if ?b then _ else _) = true => destruct b
  | |- no_separator (_ ++ _) = true => apply no_separator_app
  | |- no_separator (substring _ _ _) = true => apply no_separator_substring
  | |- no_separator (digits _) = true => apply no_separator_digits
  | |- no_separator (zeros _) = true => apply no_separator_zeros
  | |- _ => reflexivity
  end.
Qed.

Lemma no_separator_Number_toString x : no_separator (Number_toString x) = true.
Proof.
  destruct x as [|[|]|[|]|[|] m e]; try reflexivity; unfold Number_toString;
    destruct (shortest 17 m e 1) as [k c];
    apply no_separator_app; try reflexivity; apply no_separator_layout.
Qed.

Lemma no_separator_JSON_number x : no_separator (JSON_number x) = true.
Proof.
  destruct x; try reflexivity; apply no_separator_Number_toString.
Qed.

Lemma number_then_separator c x1 x2 r1 r2 :
  is_separator c = true ->
  JSON_number x1 ++ String c r1 = JSON_number x2 ++ String c r2 ->
  JSON_number x1 = JSON_number x2 /\ r1 = r2.
Proof.
  intros Hc Heq.
  destruct (all_chars_delimited (fun c => negb (is_separator c))
              _ _ c c r1 r2
              (no_separator_JSON_number x1) (no_separator_JSON_number x2))
    as (Hn & _ & Hr); [rewrite Hc; reflexivity|rewrite Hc; reflexivity|exact Heq|].
  split; assumption.
Qed.

Lemma JSON_Transaction_flat t r :
  JSON_Transaction t ++ r =
  "{" ++ JSON_string "amount" ++ ":" ++ JSON_number (amount t) ++
  String "," (JSON_string "payer" ++ ":" ++ JSON_string (payer t) ++
  "," ++ JSON_string "payee" ++ ":" ++ JSON_string (payee t) ++ "}" ++ r).
Proof.
  unfold JSON_Transaction, JSON_property. rewrite !append_assoc. reflexivity.
Qed.

(** A rendered transaction can be cut off what follows it, and fixes the
    payer, the payee and the rendering of the amount. *)
Lemma JSON_Transaction_delimited t1 t2 r1 r2 :
  JSON_Transaction t1 ++ r1 = JSON_Transaction t2 ++ r2 ->
  (JSON_number (amount t1) = JSON_number (amount t2) /\
   payer t1 = payer t2 /\ payee t1 = payee t2) /\ r1 = r2.
Proof.
  rewrite !JSON_Transaction_flat. intros Heq.
  do 3 apply append_inj_l in Heq.
  apply number_then_separator in Heq as [Ha Heq]; [|reflexivity].
  do 2 apply append_inj_l in Heq.
  apply JSON_string_delimited in Heq as [Hp Heq].
  do 3 apply append_inj_l in Heq.
  apply JSON_string_delimited in Heq as [He Heq].
  apply append_inj_l in Heq. auto.
Qed.

Lemma append_nil_r (s : string) : s ++ EmptyString = s.
Proof. induction s as [|c s IH]; simpl; [reflexivity|rewrite IH; reflexivity]. Qed.

Lemma JSON_Block_flat b :
  JSON_Block b =
  "{" ++ JSON_string "prevHash" ++ ":" ++ JSON_string (prevHash b) ++
  "," ++ JSON_string "transaction" ++ ":" ++ JSON_Transaction (transaction b) ++
  "," ++ JSON_string "ts" ++ ":" ++ JSON_number (ts b) ++
  String "," (JSON_string "nonce" ++ ":" ++ JSON_number (nonce b) ++
  String "}" EmptyString).
Proof.
  unfold JSON_Block, JSON_property. rewrite !append_assoc. reflexivity.
Qed.

(** What the rendering of a block fixes. *)
Lemma JSON_Block_fields b1 b2 :
  JSON_Block b1 = JSON_Block b2 ->
  prevHash b1 = prevHash b2 /\
  (JSON_number (amount (transaction b1)) = JSON_number (amount (transaction b2)) /\
   payer (transaction b1) = payer (transaction b2) /\
   payee (transaction b1) = payee (transaction b2)) /\
  JSON_number (ts b1) = JSON_number (ts b2) /\
  JSON_number (nonce b1) = JSON_number (nonce b2).
Proof.
  rewrite !JSON_Block_flat. intros Heq.
  do 3 apply append_inj_l in Heq.
  apply JSON_string_delimited in Heq as [Hp Heq].
  do 3 apply append_inj_l in Heq.
  apply JSON_Transaction_delimited in Heq as [Ht Heq].
  do 3 apply append_inj_l in Heq.
  apply number_then_separator in Heq as [Hts Heq]; [|reflexivity].
  do 2 apply append_inj_l in Heq.
  apply number_then_separator in Heq as [Hn _]; [|reflexivity].
  auto.
Qed.

Lemma JSON_Transaction_fields t1 t2 :
  JSON_Transaction t1 = JSON_Transaction t2 <->
  JSON_number (amount t1) = JSON_number (amount t2) /\
  payer t1 = payer t2 /\ payee t1 = payee t2.
Proof.
  split.
  - intros Heq.
    apply (JSON_Transaction_delimited t1 t2 EmptyString EmptyString).
    rewrite !append_nil_r. exact Heq.
  - intros (Ha & Hp & He). unfold JSON_Transaction. rewrite Ha, Hp, He.
    reflexivity.
Qed.

(** ** Further properties of the program *)

Section FurtherFacts.
Context `{!Crypto, !Host}.

Lemma submit_cases w c :
  (accepted c = true /\ exists tail,
     lastBlock (instance w) = Some tail /\
     submit w c = mkWorld
       (mkChain (chain (instance w) ++ [built (hash tail) (submitted c) (host w)]))
       (after_build (host w))) \/
  ((accepted c = false \/ chain (instance w) = []) /\ submit w c = w).
Proof.
  unfold submit, accepted, submitted. destruct c as [[tx key] sig].
  cbn [fst snd].
  destruct (verify (Transaction_toString tx) key sig) as [e|[|]] eqn:Hv.
  - right. split; [auto|]. rewrite (addBlock_throws _ _ _ _ e Hv). reflexivity.
  - destruct (lastBlock (instance w)) as [tail|] eqn:Hl.
    + left. split; [reflexivity|]. exists tail. split; [reflexivity|].
      rewrite (addBlock_valid _ _ _ _ tail Hv Hl). reflexivity.
    + right. split; [right; apply lastBlock_None, Hl|].
      rewrite (addBlock_undefined _ _ _ _ Hv Hl). reflexivity.
  - right. split; [auto|]. rewrite (addBlock_invalid _ _ _ _ Hv). reflexivity.
Qed.

Lemma submit_all_log : forall cs w,
  chain (instance w) <> [] ->
  map transaction (chain (instance (submit_all cs w))) =
    (map transaction (chain (instance w))
       ++ map submitted (filter (fun c => accepted c = true) cs))%list.
Proof.
  induction cs as [|c cs IH]; intros w Hne.
  - simpl. rewrite app_nil_r. reflexivity.
  - change (submit_all (c :: cs) w) with (submit_all cs (submit w c)).
    destruct (submit_cases w c) as [(Hacc & tail & _ & Hw)|([Hrej|Hnil] & Hw)].
    + rewrite IH by (rewrite Hw; simpl; intros Habs; destruct (chain (instance w)); discriminate Habs).
      rewrite Hw. simpl chain. rewrite map_app. simpl.
      rewrite filter_cons_True by exact Hacc.
      rewrite <- app_assoc. reflexivity.
    + rewrite IH by (rewrite Hw; exact Hne). rewrite Hw.
      rewrite filter_cons_False by (rewrite Hrej; discriminate). reflexivity.
    + contradiction.
Qed.

Lemma mine_loop_returned seed : forall fuel (s : Z) w r w',
  (1 <= s <= 2 ^ 53)%Z ->
  mine_loop fuel seed (Number_of_Z s) w = Normal r w' ->
  exists k : Z,
    r = Number_of_Z k /\
    (s <= k <= 2 ^ 53)%Z /\
    (k < s + Z.of_nat fuel)%Z /\
    solves seed (Number_of_Z k) = true /\
    (forall j, s <= j < k -> solves seed (Number_of_Z j) = false)%Z /\
    w' = mkWorld (instance w)
           (logged [Text ("Solved: " ++ Number_toString (Number_of_Z k))]
                   (host w)).
Proof.
  induction fuel as [|fuel IH]; intros s w r w' Hs Hret; [discriminate Hret|].
  cbn [mine_loop] in Hret. destruct (solves seed (Number_of_Z s)) eqn:Hsol.
  - injection Hret as <- <-. exists s.
    split; [reflexivity|]. split; [lia|]. split; [lia|].
    split; [exact Hsol|]. split; [intros; lia|reflexivity].
  - change (Number_of_Z 1) with (Number_of_Z 1%Z) in Hret.
    rewrite (counter_next s Hs) in Hret.
    apply IH in Hret as (k & -> & Hk & Hturns & Hyes & Hmin & ->); [|lia].
    destruct (Z.eq_dec s (2 ^ 53)) as [->|Hne].
    + rewrite Z.min_r in Hk by lia.
      replace k with (2 ^ 53)%Z in Hyes by lia. congruence.
    + rewrite Z.min_l in Hk, Hturns, Hmin by lia. exists k.
      split; [reflexivity|]. split; [lia|]. split; [lia|].
      split; [exact Hyes|]. split; [|reflexivity].
      intros j Hj. destruct (Z.eq_dec j s) as [->|Hjs]; [exact Hsol|].
      apply Hmin. lia.
Qed.

Lemma mine_loop_never_throws seed : forall fuel s w e w',
  mine_loop fuel seed s w <> Throw e w'.
Proof.
  induction fuel as [|fuel IH]; intros s w e w'; [discriminate|].
  simpl. destruct (solves seed s); [discriminate|apply IH].
Qed.

Lemma mine_returned fuel seed w r w' :
  mine fuel seed w = Normal r w' ->
  exists k : Z,
    r = Number_of_Z k /\
    (1 <= k <= 2 ^ 53)%Z /\ (k <= Z.of_nat fuel)%Z /\
    solves seed (Number_of_Z k) = true /\
    (forall j, 1 <= j < k -> solves seed (Number_of_Z j) = false)%Z /\
    w' = mined (Number_of_Z k) w.
Proof.
  rewrite mine_unfold. change (Number_of_Z 1) with (Number_of_Z 1%Z).
  intros Hret.
  apply mine_loop_returned in Hret
    as (k & -> & Hk & Hturns & Hsol & Hmin & ->); [|lia].
  exists k. split; [reflexivity|]. split; [lia|]. split; [lia|].
  split; [exact Hsol|]. split; [exact Hmin|].
  unfold mined, logged. simpl. rewrite <- app_assoc. reflexivity.
Qed.

Lemma mine_found seed (r : Z) fuel w :
  (1 <= r <= 2 ^ 53)%Z ->
  solves seed (Number_of_Z r) = true ->
  (forall k, 1 <= k < r -> solves seed (Number_of_Z k) = false)%Z ->
  (Z.to_nat r <= fuel)%nat ->
  mine fuel seed w = Normal (Number_of_Z r) (mined (Number_of_Z r) w).
Proof.
  intros Hr Hsol Hmin Hfuel. rewrite mine_unfold.
  change (Number_of_Z 1) with (Number_of_Z 1%Z).
  rewrite (mine_loop_found seed _ (Z.to_nat (r - 1)) fuel 1%Z).
  - replace (1 + Z.of_nat (Z.to_nat (r - 1)))%Z with r by lia.
    unfold mined, logged. simpl. rewrite <- app_assoc. reflexivity.
  - lia.
  - lia.
  - intros k Hk. apply Hmin. lia.
  - replace (1 + Z.of_nat (Z.to_nat (r - 1)))%Z with r by lia. exact Hsol.
  - lia.
Qed.

Lemma mine_loop_counters seed : forall fuel s w,
  clock_reads (host (state_of (mine_loop fuel seed s w))) = clock_reads (host w) /\
  random_draws (host (state_of (mine_loop fuel seed s w))) = random_draws (host w) /\
  keys_generated (host (state_of (mine_loop fuel seed s w))) = keys_generated (host w).
Proof.
  induction fuel as [|fuel IH]; intros s w; [auto|].
  simpl. destruct (solves seed s); [auto|apply IH].
Qed.

Lemma mine_counters fuel seed w :
  clock_reads (host (state_of (mine fuel seed w))) = clock_reads (host w) /\
  random_draws (host (state_of (mine fuel seed w))) = random_draws (host w) /\
  keys_generated (host (state_of (mine fuel seed w))) = keys_generated (host w).
Proof.
  rewrite mine_unfold.
  apply (mine_loop_counters seed fuel 1%Z
           (mkWorld (instance w) (logged [Text "mining..."] (host w)))).
Qed.

Lemma steps_grow w w' :
  rtc step w w' ->
  exists added, chain (instance w') = (chain (instance w) ++ added)%list.
Proof.
  induction 1 as [w|w1 w2 w3 H12 _ (added & IH)].
  - exists []. rewrite app_nil_r. reflexivity.
  - destruct (step_grows _ _ H12) as [Heq|(tail & b & _ & _ & Heq)];
      rewrite IH, Heq.
    + exists added. reflexivity.
    + exists (b :: added). rewrite <- app_assoc. reflexivity.
Qed.

Lemma boot_readings h w0 : boot h = Some w0 -> readings_in_step h w0.
Proof.
  intros Hboot. apply boot_well_formed in Hboot. subst w0.
  unfold readings_in_step. simpl.
  split; [lia|]. split; [lia|]. split; [reflexivity|].
  intros [|i] b Hb; [|discriminate Hb].
  injection Hb as <-. simpl. rewrite !Nat.add_0_r. auto.
Qed.

Lemma step_readings h w w' :
  step w w' -> readings_in_step h w -> readings_in_step h w'.
Proof.
  intros [tx key sig w0|fuel seed w0] (Hc & Hr & Hk & Hb).
  - destruct (addBlock_cases tx key sig w0) as [->|(tail & _ & _ & ->)].
    + repeat split; try assumption; apply (Hb i b); assumption.
    + unfold readings_in_step. simpl. rewrite length_app. simpl.
      split; [lia|]. split; [lia|]. split; [exact Hk|].
      intros i b Hi.
      destruct (Nat.lt_ge_cases i (length (chain (instance w0)))) as [Hlt|Hge].
      * rewrite lookup_app_l in Hi by exact Hlt. apply Hb, Hi.
      * rewrite lookup_app_r in Hi by exact Hge.
        destruct (i - length (chain (instance w0)))%nat as [|j] eqn:Hj;
          [|discriminate Hi].
        injection Hi as <-. simpl.
        replace i with (length (chain (instance w0))) by lia.
        rewrite Hc, Hr. auto.
  - destruct (mine_counters fuel seed w0) as (Hc' & Hr' & Hk').
    unfold readings_in_step. rewrite Hc', Hr', Hk', mine_frame.
    repeat split; try assumption; apply (Hb i b); assumption.
Qed.

Lemma steps_readings h w w' :
  rtc step w w' -> readings_in_step h w -> readings_in_step h w'.
Proof.
  induction 1 as [|w1 w2 w3 H12 _ IH]; [auto|].
  intros Hinv. apply IH. eapply step_readings; eassumption.
Qed.

Lemma hash_eq_cases b1 b2 :
  hash b1 = hash b2 -> JSON_Block b1 = JSON_Block b2 \/ collide b1 b2.
Proof.
  intros Heq.
  destruct (string_dec (JSON_Block b1) (JSON_Block b2)) as [Hj|Hj].
  - left. exact Hj.
  - right. split; assumption.
Qed.

Lemma linked_init (l : list Block) (b : Block) : linked (l ++ [b]) -> linked l.
Proof.
  intros Hl i b' Hi.
  pose proof (lookup_lt_Some _ _ _ Hi) as Hlt.
  destruct (Hl i b') as (p & Hp & Hh).
  - rewrite lookup_app_l by lia. exact Hi.
  - exists p. split; [|exact Hh]. rewrite lookup_app_l in Hp by lia. exact Hp.
Qed.

Lemma linked_last (l : list Block) (p b : Block) :
  linked (l ++ [b]) -> last l = Some p -> prevHash b = hash p.
Proof.
  intros Hl Hp. rewrite last_lookup in Hp.
  pose proof (lookup_lt_Some _ _ _ Hp) as Hlt.
  destruct (Hl (pred (length l)) b) as (q & Hq & Hh).
  - rewrite lookup_app_r by lia.
    replace (S (pred (length l)) - length l)%nat with 0%nat by lia. reflexivity.
  - rewrite lookup_app_l in Hq by lia. congruence.
Qed.

Lemma tail_commits : forall l1 l2 t1 t2,
  linked l1 -> linked l2 -> length l1 = length l2 ->
  last l1 = Some t1 -> last l2 = Some t2 -> hash t1 = hash t2 ->
  Forall2 (fun b1 b2 => JSON_Block b1 = JSON_Block b2) l1 l2 \/
  exists i b1 b2, l1 !! i = Some b1 /\ l2 !! i = Some b2 /\ collide b1 b2.
Proof.
  induction l1 as [|x l1 IH] using rev_ind; intros l2 t1 t2 H1 H2 Hlen Ht1 Ht2 Hh.
  - discriminate Ht1.
  - destruct l2 as [|y l2 _] using rev_ind; [discriminate Ht2|].
    rewrite last_snoc in Ht1, Ht2. injection Ht1 as <-. injection Ht2 as <-.
    rewrite !length_app in Hlen. simpl in Hlen.
    assert (Hlen' : length l1 = length l2) by lia.
    destruct (hash_eq_cases _ _ Hh) as [Hsame|Hcol].
    2:{ right. exists (length l1), x, y.
        split; [apply list_lookup_middle; reflexivity|].
        split; [apply list_lookup_middle; exact Hlen'|exact Hcol]. }
    pose proof (JSON_Block_fields _ _ Hsame) as [Hprev _].
    destruct (last l1) as [p1|] eqn:Hp1.
    + destruct (last l2) as [p2|] eqn:Hp2.
      * destruct (IH l2 p1 p2) as [Hall|(i & b1 & b2 & Hi1 & Hi2 & Hcol)].
        -- eapply linked_init, H1.
        -- eapply linked_init, H2.
        -- exact Hlen'.
        -- reflexivity.
        -- exact Hp2.
        -- rewrite <- (linked_last _ _ _ H1 Hp1), <- (linked_last _ _ _ H2 Hp2).
           exact Hprev.
        -- left. apply Forall2_app; [exact Hall|].
           constructor; [exact Hsame|constructor].
        -- right. exists i, b1, b2.
           split; [apply lookup_app_l_Some, Hi1|].
           split; [apply lookup_app_l_Some, Hi2|exact Hcol].
      * apply last_None in Hp2. subst l2. destruct l1; [discriminate Hp1|].
        simpl in Hlen'. lia.
    + apply last_None in Hp1. subst l1. destruct l2; [|simpl in Hlen'; lia].
      left. constructor; [exact Hsame|constructor].
Qed.

Lemma bind_Normal {S A B} (m : JS S A) (k : A -> JS S B) s a s' :
  m s = Normal a s' -> (m ≫= k) s = k a s'.
Proof. intros Hm. unfold mbind, JS_bind. rewrite Hm. reflexivity. Qed.

Lemma bind_Throw {S A B} (m : JS S A) (k : A -> JS S B) s e s' :
  m s = Throw e s' -> (m ≫= k) s = Throw e s'.
Proof. intros Hm. unfold mbind, JS_bind. rewrite Hm. reflexivity. Qed.

Lemma Wallet_new_ok kp w :
  generateKeyPairSync (keys_generated (host w)) = inr kp ->
  on_host Wallet_new w =
    Normal (mkWallet (kp_publicKey kp) (kp_privateKey kp))
           (mkWorld (instance w) (after_keygen (host w))).
Proof.
  intros Hk. unfold on_host, Wallet_new, mbind, JS_bind, keygen.
  rewrite Hk. reflexivity.
Qed.

Lemma Wallet_new_throws e w :
  generateKeyPairSync (keys_generated (host w)) = inl e ->
  on_host Wallet_new w = Throw e (mkWorld (instance w) (after_keygen (host w))).
Proof.
  intros Hk. unfold on_host, Wallet_new, mbind, JS_bind, keygen.
  rewrite Hk. reflexivity.
Qed.

Lemma sendMoney_sound kp amt payeePublicKey w tail :
  sound_pair kp ->
  lastBlock (instance w) = Some tail ->
  sendMoney (mkWallet (kp_publicKey kp) (kp_privateKey kp)) amt payeePublicKey w =
    Normal tt
      (mkWorld
         (mkChain (chain (instance w) ++
            [built (hash tail) (mkTransaction amt (kp_publicKey kp) payeePublicKey)
                   (host w)]))
         (after_build (host w))).
Proof.
  intros Hsound Htail.
  destruct (Hsound (Transaction_toString
                      (mkTransaction amt (kp_publicKey kp) payeePublicKey)))
    as (sig & Hsign & Hvalid).
  unfold sendMoney. simpl publicKey. simpl privateKey.
  rewrite (bind_Normal _ _ w sig w) by (rewrite Hsign; reflexivity).
  apply (addBlock_valid _ _ _ _ tail Hvalid Htail).
Qed.

End FurtherFacts.

(** ** Further theorems *)

Section FurtherTheorems.
Context `{!Crypto, !Host}.

(** X1. Calls of [addBlock] and [mine] never remove or replace a block:
    after any sequence of calls the former chain is the beginning of the
    new one, so each block stays at its index and the chain is no
    shorter. *)
Theorem blocks_are_never_removed_or_replaced w w' :
  rtc step w w' ->
  (length (chain (instance w)) <= length (chain (instance w')))%nat /\
  (forall i b, chain (instance w) !! i = Some b ->
     chain (instance w') !! i = Some b) /\
  exists added, chain (instance w') = (chain (instance w) ++ added)%list.
Proof.
  intros Hsteps. destruct (steps_grow _ _ Hsteps) as [added Heq].
  split; [rewrite Heq, length_app; lia|].
  split; [|exists added; exact Heq].
  intros i b Hb. rewrite Heq. apply lookup_app_l_Some. exact Hb.
Qed.

(** *** Readings of the host *)

(** X2. From the static initialiser on, the host has read the clock and
    drawn a random number exactly once per block of the chain and has
    generated no key; the block at index [i] carries the [i]-th of these
    clock readings as [ts] and the [i]-th draw as [nonce]. *)
Theorem block_carries_the_readings_of_its_turn h w0 w :
  boot h = Some w0 ->
  rtc step w0 w ->
  clock_reads (host w) = (clock_reads h + length (chain (instance w)))%nat /\
  random_draws (host w) = (random_draws h + length (chain (instance w)))%nat /\
  keys_generated (host w) = keys_generated h /\
  forall i b, chain (instance w) !! i = Some b ->
    ts b = Date_now (clock_reads h + i) /\
    nonce b = Math_round_random (random_draws h + i).
Proof.
  intros Hboot Hsteps.
  exact (steps_readings h _ _ Hsteps (boot_readings _ _ Hboot)).
Qed.

(** X3. When the clock of the host never goes back, the timestamps along
    the chain never decrease. *)
Theorem timestamps_follow_the_clock h w0 w :
  monotone_clock ->
  boot h = Some w0 ->
  rtc step w0 w ->
  forall i j bi bj, (i <= j)%nat ->
    chain (instance w) !! i = Some bi ->
    chain (instance w) !! j = Some bj ->
    (ts bi <= ts bj)%Z.
Proof.
  intros Hmono Hboot Hsteps i j bi bj Hij Hi Hj.
  destruct (steps_readings h _ _ Hsteps (boot_readings _ _ Hboot))
    as (_ & _ & _ & Hb).
  destruct (Hb i bi Hi) as [-> _]. destruct (Hb j bj Hj) as [-> _].
  apply Hmono. lia.
Qed.

(** X4. On a chain that is not empty, after any list of calls of
    [addBlock] the transactions of the chain are the former ones followed
    by the transactions of the calls whose signature verified, in the order
    of the calls; the other calls leave no trace. *)
Theorem accepted_submissions_form_the_chain cs w :
  chain (instance w) <> [] ->
  map transaction (chain (instance (submit_all cs w))) =
    (map transaction (chain (instance w))
       ++ map submitted (filter (fun c => accepted c = true) cs))%list /\
  length (chain (instance (submit_all cs w))) =
    (length (chain (instance w))
       + length (filter (fun c => accepted c = true) cs))%nat.
Proof.
  intros Hne. pose proof (submit_all_log cs w Hne) as Hlog.
  split; [exact Hlog|].
  apply (f_equal (@length Transaction)) in Hlog.
  rewrite length_app, !length_map in Hlog. exact Hlog.
Qed.

(** X5. [addBlock] keeps no record of what it has accepted: a transaction
    with a signature that verifies is appended again each time the same
    call is repeated. *)
Theorem same_signed_transaction_is_appended_each_time tx key sig w n :
  verify (Transaction_toString tx) key sig = inr true ->
  chain (instance w) <> [] ->
  map transaction (chain (instance (submit_all (repeat (tx, key, sig) n) w))) =
    (map transaction (chain (instance w)) ++ repeat tx n)%list.
Proof.
  intros Hvalid Hne. rewrite (submit_all_log _ w Hne). f_equal.
  assert (Hacc : accepted (tx, key, sig) = true).
  { unfold accepted, submitted. cbn [fst snd]. rewrite Hvalid. reflexivity. }
  induction n as [|n IH]; [reflexivity|].
  simpl repeat. rewrite filter_cons_True by exact Hacc.
  simpl. rewrite IH. reflexivity.
Qed.

(** X6. Whatever [mine] returns is an integer from 1 to 2^53, the least
    one whose sum with the seed has a digest that meets the target; the
    loop took that many turns, wrote the two lines to the console, and
    returns the same with any larger number of turns allowed. *)
Theorem mine_result_is_least_solution fuel seed w r w' :
  mine fuel seed w = Normal r w' ->
  exists k : Z,
    r = Number_of_Z k /\
    (1 <= k <= 2 ^ 53)%Z /\ (k <= Z.of_nat fuel)%Z /\
    meets_target seed r /\
    (forall j : Z, (1 <= j < k)%Z -> ~ meets_target seed (Number_of_Z j)) /\
    w' = mined r w /\
    (forall fuel', (fuel <= fuel')%nat -> mine fuel' seed w = Normal r w').
Proof.
  intros Hret.
  destruct (mine_returned _ _ _ _ _ Hret) as (k & -> & Hk & Hturns & Hsol & Hmin & ->).
  exists k. split; [reflexivity|]. split; [exact Hk|]. split; [exact Hturns|].
  split; [apply solves_meets_target, Hsol|].
  split.
  { intros j Hj Hmj. apply solves_meets_target in Hmj.
    rewrite (Hmin j Hj) in Hmj. discriminate Hmj. }
  split; [reflexivity|].
  intros fuel' Hle. apply mine_found; [exact Hk|exact Hsol|exact Hmin|lia].
Qed.

(** X7. When no integer from 1 to 2^53 gives, added to the seed, a digest
    that meets the target, [mine] never returns: after any number of turns
    the loop is still running, with only "mining..." written. *)
Theorem mine_spins_without_solution seed :
  (forall k : Z, (1 <= k <= 2 ^ 53)%Z -> ~ meets_target seed (Number_of_Z k)) ->
  forall fuel w,
    mine fuel seed w =
      Spinning (mkWorld (instance w) (logged [Text "mining..."] (host w))).
Proof.
  intros Hnone fuel w. rewrite mine_unfold.
  change (Number_of_Z 1) with (Number_of_Z 1%Z).
  apply mine_loop_spinning; [lia|].
  intros k Hk _. destruct (solves seed (Number_of_Z k)) eqn:Hs; [|reflexivity].
  apply solves_meets_target in Hs. destruct (Hnone k); [lia|exact Hs].
Qed.

(** X8. As long as the sums are exact, the seed only shifts the search:
    when [mine] returns [r] for a seed that is a natural number [n] with
    [n + r] below 2^53, it returns [r - k] for the seed [n + k], for every
    [k] from 0 below [r]. *)
Theorem mine_seed_is_an_offset fuel (n : Z) w r w' :
  (0 <= n)%Z ->
  mine fuel (Number_of_Z n) w = Normal r w' ->
  exists rk : Z,
    r = Number_of_Z rk /\ (1 <= rk)%Z /\
    forall k : Z, (0 <= k < rk)%Z -> (n + rk < 2 ^ 53)%Z ->
      forall v,
        mine fuel (Number_add (Number_of_Z n) (Number_of_Z k)) v =
          Normal (Number_of_Z (rk - k)) (mined (Number_of_Z (rk - k)) v).
Proof.
  intros Hn Hret.
  destruct (mine_returned _ _ _ _ _ Hret) as (rk & -> & Hrk & Hturns & Hsol & Hmin & _).
  exists rk. split; [reflexivity|]. split; [lia|].
  intros k Hk Hsafe v.
  assert (Hshift : forall j : Z, (1 <= j <= rk - k)%Z ->
            solves (Number_add (Number_of_Z n) (Number_of_Z k)) (Number_of_Z j)
            = solves (Number_of_Z n) (Number_of_Z (k + j))).
  { intros j Hj. unfold solves.
    rewrite (Number_add_exact n k) by lia.
    rewrite (Number_add_exact (n + k) j) by lia.
    rewrite (Number_add_exact n (k + j)) by lia.
    rewrite Z.add_assoc. reflexivity. }
  apply mine_found.
  - lia.
  - rewrite Hshift by lia. replace (k + (rk - k))%Z with rk by lia. exact Hsol.
  - intros j Hj. rewrite Hshift by lia. apply Hmin. lia.
  - lia.
Qed.

(** X9. [mine] never throws, and apart from the console it leaves the host
    alone: it reads no clock, draws no random number and generates no
    key. *)
Theorem mine_only_writes_to_the_console fuel seed w :
  (forall e w', mine fuel seed w <> Throw e w') /\
  clock_reads (host (state_of (mine fuel seed w))) = clock_reads (host w) /\
  random_draws (host (state_of (mine fuel seed w))) = random_draws (host w) /\
  keys_generated (host (state_of (mine fuel seed w))) = keys_generated (host w).
Proof.
  split; [|apply mine_counters].
  intros e w'. rewrite mine_unfold. apply mine_loop_never_throws.
Qed.

(** *** The chain only grows *)

(** X10. Two transactions have the same [toString()], the string that is
    signed and verified, exactly when they have the same payer, the same
    payee and amounts with the same JSON rendering. The amount itself is not
    fixed: [NaN] and the infinities all render as [null]. *)
Theorem Transaction_toString_equal_iff t1 t2 :
  Transaction_toString t1 = Transaction_toString t2 <->
  JSON_number (amount t1) = JSON_number (amount t2) /\
  payer t1 = payer t2 /\ payee t1 = payee t2.
Proof. apply JSON_Transaction_fields. Qed.

(** X11. Two blocks with the same hash have the same [prevHash], payer and
    payee and the same JSON rendering of amount, [ts] and [nonce], or else
    their renderings are two different strings with the same SHA-256
    digest. *)
Theorem equal_hashes_mean_equal_renderings_or_a_collision b1 b2 :
  hash b1 = hash b2 ->
  (JSON_Block b1 = JSON_Block b2 /\
   prevHash b1 = prevHash b2 /\
   payer (transaction b1) = payer (transaction b2) /\
   payee (transaction b1) = payee (transaction b2) /\
   JSON_number (amount (transaction b1)) = JSON_number (amount (transaction b2)) /\
   JSON_number (ts b1) = JSON_number (ts b2) /\
   JSON_number (nonce b1) = JSON_number (nonce b2)) \/
  collide b1 b2.
Proof.
  intros Hh. destruct (hash_eq_cases _ _ Hh) as [Hsame|Hcol]; [left|right; exact Hcol].
  destruct (JSON_Block_fields _ _ Hsame) as (Hp & (Ha & Hpr & Hpe) & Hts & Hn).
  auto 10.
Qed.

(** X12. The hash of the last block commits to the renderings of the whole
    chain: of two linked chains of the same length whose last blocks have
    the same hash, the blocks at each index have the same rendering, or else
    at some index the two blocks have different renderings with the same
    SHA-256 digest. *)
Theorem tail_hash_commits_to_the_chain l1 l2 t1 t2 :
  linked l1 -> linked l2 -> length l1 = length l2 ->
  last l1 = Some t1 -> last l2 = Some t2 -> hash t1 = hash t2 ->
  Forall2 (fun b1 b2 => JSON_Block b1 = JSON_Block b2) l1 l2 \/
  exists i b1 b2, l1 !! i = Some b1 /\ l2 !! i = Some b2 /\ collide b1 b2.
Proof. apply tail_commits. Qed.

(** X13. [addBlock] throws in two cases only, and before it has written
    anything: when the verifier throws, with the verifier's error, and when
    the signature verifies on a chain without a last block, with a
    [TypeError]. In both the state is the one before the call. *)
Theorem addBlock_throws_only_before_it_writes tx key sig w e w' :
  addBlock tx key sig w = Throw e w' <->
  w' = w /\
  (verify (Transaction_toString tx) key sig = inl e \/
   (verify (Transaction_toString tx) key sig = inr true /\
    chain (instance w) = [] /\ e = TypeError)).
Proof.
  destruct (verify (Transaction_toString tx) key sig) as [e0|[|]] eqn:Hv.
  - rewrite (addBlock_throws _ _ _ _ e0 Hv). split.
    + intros [= <- <-]. auto.
    + intros [-> [[= ->]|([=] & _)]]. reflexivity.
  - destruct (lastBlock (instance w)) as [tail|] eqn:Hl.
    + rewrite (addBlock_valid _ _ _ _ tail Hv Hl). split; [discriminate|].
      intros [_ [[=]|(_ & Hnil & _)]].
      apply lastBlock_None in Hnil. congruence.
    + rewrite (addBlock_undefined _ _ _ _ Hv Hl). split.
      * intros [= <- <-]. split; [reflexivity|]. right.
        split; [reflexivity|]. split; [apply lastBlock_None, Hl|reflexivity].
      * intros [-> [[=]|(_ & _ & ->)]]. reflexivity.
  - rewrite (addBlock_invalid _ _ _ _ Hv). split; [discriminate|].
    intros [_ [[=]|([=] & _)]].
Qed.

(** X14. [sendMoney] leaves the state as it was, or returns after appending
    a single block, linked to the former last block, whose transaction has
    the amount and payee given and the wallet's own public key as payer. *)
Theorem sendMoney_only_adds_own_payments this amt payeePublicKey w :
  state_of (sendMoney this amt payeePublicKey w) = w \/
  exists tail b,
    lastBlock (instance w) = Some tail /\
    sendMoney this amt payeePublicKey w =
      Normal tt (mkWorld (mkChain (chain (instance w) ++ [b]))
                         (after_build (host w))) /\
    transaction b = mkTransaction amt (publicKey this) payeePublicKey /\
    prevHash b = hash tail.
Proof.
  destruct (sendMoney_cases this amt payeePublicKey w) as [Hsame|[sig Hsend]];
    [left; exact Hsame|].
  rewrite Hsend.
  set (tx := mkTransaction amt (publicKey this) payeePublicKey).
  destruct (verify (Transaction_toString tx) (publicKey this) sig)
    as [e|[|]] eqn:Hv.
  - left. rewrite (addBlock_throws _ _ _ _ e Hv). reflexivity.
  - destruct (lastBlock (instance w)) as [tail|] eqn:Hl.
    + right. exists tail, (built (hash tail) tx (host w)).
      rewrite (addBlock_valid _ _ _ _ tail Hv Hl). auto.
    + left. rewrite (addBlock_undefined _ _ _ _ Hv Hl). reflexivity.
  - left. rewrite (addBlock_invalid _ _ _ _ Hv). reflexivity.
Qed.

(** X15. The statements at the end of the file, run on a chain with a last
    block by a host whose next three key pairs are generated and sign
    soundly: three wallets are created, the three payments of 50, 23 and 5
    are appended in that order, each block linked to the one before, each
    payee the payer of the next payment, and the chain is printed last. *)
Theorem script_pays_along_the_chain w tail k1 k2 k3 :
  lastBlock (instance w) = Some tail ->
  generateKeyPairSync (keys_generated (host w)) = inr k1 ->
  generateKeyPairSync (S (keys_generated (host w))) = inr k2 ->
  generateKeyPairSync (S (S (keys_generated (host w)))) = inr k3 ->
  sound_pair k1 -> sound_pair k2 -> sound_pair k3 ->
  exists w' b1 b2 b3,
    script w = Normal tt w' /\
    chain (instance w') = (chain (instance w) ++ [b1; b2; b3])%list /\
    transaction b1 = mkTransaction 50 (kp_publicKey k1) (kp_publicKey k2) /\
    transaction b2 = mkTransaction 23 (kp_publicKey k2) (kp_publicKey k3) /\
    transaction b3 = mkTransaction 5 (kp_publicKey k3) (kp_publicKey k1) /\
    prevHash b1 = hash tail /\ prevHash b2 = hash b1 /\ prevHash b3 = hash b2 /\
    console (host w') = (console (host w) ++ [Inspected (instance w')])%list.
Proof.
  intros Htail Hk1 Hk2 Hk3 Hs1 Hs2 Hs3.
  pose (w1 := mkWorld (instance w) (after_keygen (host w))).
  pose (w2 := mkWorld (instance w) (after_keygen (host w1))).
  pose (w3 := mkWorld (instance w) (after_keygen (host w2))).
  unfold script.
  rewrite (bind_Normal _ _ _ _ _ (Wallet_new_ok k1 w Hk1)).
  rewrite (bind_Normal _ _ _ _ _ (Wallet_new_ok k2 w1 Hk2)).
  rewrite (bind_Normal _ _ _ _ _ (Wallet_new_ok k3 w2 Hk3)).
  rewrite (bind_Normal _ _ _ _ _
             (sendMoney_sound k1 50 (kp_publicKey k2) w3 tail Hs1 Htail)).
  pose (b1 := built (hash tail)
                (mkTransaction 50 (kp_publicKey k1) (kp_publicKey k2)) (host w3)).
  pose (w4 := mkWorld (mkChain (chain (instance w) ++ [b1]))
                      (after_build (host w3))).
  rewrite (bind_Normal _ _ _ _ _
             (sendMoney_sound k2 23 (kp_publicKey k3) w4 b1 Hs2
                (lastBlock_snoc _ _))).
  pose (b2 := built (hash b1)
                (mkTransaction 23 (kp_publicKey k2) (kp_publicKey k3)) (host w4)).
  pose (w5 := mkWorld (mkChain (chain (instance w4) ++ [b2]))
                      (after_build (host w4))).
  rewrite (bind_Normal _ _ _ _ _
             (sendMoney_sound k3 5 (kp_publicKey k1) w5 b2 Hs3
                (lastBlock_snoc _ _))).
  do 4 eexists. split; [reflexivity|].
  simpl. rewrite <- !app_assoc. simpl.
  repeat split.
Qed.

End FurtherTheorems.

(** ** The example runtime again *)

Lemma substring_whole (s : string) : String.substring 0 (String.length s) s = s.
Proof. induction s as [|c s IH]; simpl; [reflexivity|rewrite IH; reflexivity]. Qed.

Lemma demo_key_id (kind id : string) : Demo.key_id kind (kind ++ id) = Some id.
Proof.
  unfold Demo.key_id.
  assert (Hpre : String.prefix kind (kind ++ id) = true).
  { induction kind as [|c kind IH]; simpl; [destruct id; reflexivity|].
    destruct (ascii_dec c c) as [_|Hne]; [exact IH|contradiction]. }
  rewrite Hpre. f_equal.
  induction kind as [|c kind IH]; simpl.
  - rewrite Nat.sub_0_r. apply substring_whole.
  - apply IH. destruct kind; [destruct id; reflexivity|].
    simpl in Hpre. destruct (ascii_dec c c) as [_|Hne]; [exact Hpre|contradiction].
Qed.

(** The key pairs of the example host sign soundly. *)
Lemma demo_pair_sound (id : string) :
  @sound_pair Demo.crypto (mkKeyPair ("public:" ++ id) ("private:" ++ id)).
Proof.
  intros data. exists (list_byte_of_string (Demo.tag id data)).
  unfold sign, verify, Demo.crypto, Demo.demo_sign, Demo.demo_verify.
  cbn [kp_publicKey kp_privateKey].
  rewrite !demo_key_id. split; [reflexivity|].
  rewrite string_of_list_byte_of_string, String.eqb_refl. reflexivity.
Qed.


(** ** The further theorems at work on the example runtime *)

Lemma blocks_are_never_removed_or_replaced_witness :
  (length (chain (instance Demo.w0)) <= length (chain (instance Demo.w2)))%nat /\
  (forall i b, chain (instance Demo.w0) !! i = Some b ->
     chain (instance Demo.w2) !! i = Some b) /\
  exists added,
    chain (instance Demo.w2) = (chain (instance Demo.w0) ++ added)%list.
Proof.
  exact (@blocks_are_never_removed_or_replaced Demo.crypto Demo.host
           Demo.w0 Demo.w2 (proj2 demo_reachable_w2)).
Defined.

Lemma block_carries_the_readings_of_its_turn_witness :
  clock_reads (host Demo.w2) = (0 + length (chain (instance Demo.w2)))%nat /\
  random_draws (host Demo.w2) = (0 + length (chain (instance Demo.w2)))%nat /\
  keys_generated (host Demo.w2) = 0%nat /\
  forall i b, chain (instance Demo.w2) !! i = Some b ->
    ts b = @Date_now Demo.host (0 + i) /\
    nonce b = @Math_round_random Demo.host (0 + i).
Proof.
  exact (@block_carries_the_readings_of_its_turn Demo.crypto Demo.host
           Demo.h0 Demo.w0 Demo.w2 eq_refl (proj2 demo_reachable_w2)).
Defined.

Lemma timestamps_follow_the_clock_witness :
  (ts Demo.genesis <= ts Demo.block1)%Z.
Proof.
  apply (@timestamps_follow_the_clock Demo.crypto Demo.host
           Demo.h0 Demo.w0 Demo.w2) with (i := 0%nat) (j := 1%nat).
  - intros i j Hij. simpl. lia.
  - reflexivity.
  - exact (proj2 demo_reachable_w2).
  - lia.
  - vm_compute. reflexivity.
  - vm_compute. reflexivity.
Defined.

Lemma accepted_submissions_form_the_chain_witness :
  map transaction
      (chain (instance (@submit_all Demo.crypto Demo.host Demo.submissions Demo.w0)))
    = [genesis_transaction; Demo.tx_ab; Demo.tx_forged] /\
  length (chain (instance
      (@submit_all Demo.crypto Demo.host Demo.submissions Demo.w0))) = 3%nat.
Proof.
  assert (Hne : chain (instance Demo.w0) <> []) by discriminate.
  destruct (@accepted_submissions_form_the_chain Demo.crypto Demo.host
              Demo.submissions Demo.w0 Hne) as [Hlog Hlen].
  split; [rewrite Hlog|rewrite Hlen]; vm_compute; reflexivity.
Defined.

Lemma same_signed_transaction_is_appended_each_time_witness :
  map transaction
      (chain (instance (@submit_all Demo.crypto Demo.host
         (repeat (Demo.tx_ab, publicKey Demo.alice, Demo.sig_ab) 3) Demo.w0)))
    = (map transaction (chain (instance Demo.w0)) ++ repeat Demo.tx_ab 3)%list.
Proof.
  apply (@same_signed_transaction_is_appended_each_time Demo.crypto Demo.host
           Demo.tx_ab (publicKey Demo.alice) Demo.sig_ab Demo.w0 3).
  - vm_compute. reflexivity.
  - discriminate.
Defined.

Lemma mine_result_is_least_solution_witness :
  exists k : Z,
    Number_of_Z 3 = Number_of_Z k /\
    (1 <= k <= 2 ^ 53)%Z /\ (k <= Z.of_nat 5)%Z /\
    @meets_target Demo.crypto 5326 (Number_of_Z 3) /\
    (forall j : Z, (1 <= j < k)%Z ->
       ~ @meets_target Demo.crypto 5326 (Number_of_Z j)) /\
    mined 3 Demo.w0 = mined (Number_of_Z 3) Demo.w0 /\
    (forall fuel', (5 <= fuel')%nat ->
       @mine Demo.crypto fuel' 5326 Demo.w0
         = Normal (Number_of_Z 3) (mined 3 Demo.w0)).
Proof.
  apply (@mine_result_is_least_solution Demo.crypto 5 5326 Demo.w0
           (Number_of_Z 3) (mined 3 Demo.w0)).
  vm_compute. reflexivity.
Defined.

Lemma mine_spins_without_solution_witness :
  @mine Demo.crypto 1000 NaN Demo.w0 =
    Spinning (mkWorld (instance Demo.w0)
                      (logged [Text "mining..."] (host Demo.w0))).
Proof.
  apply (@mine_spins_without_solution Demo.crypto NaN).
  intros k _ Hmeets. unfold meets_target in Hmeets.
  change (Number_add NaN (Number_of_Z k)) with NaN in Hmeets.
  vm_compute in Hmeets. discriminate Hmeets.
Defined.

Lemma mine_seed_is_an_offset_witness :
  exists rk : Z,
    Number_of_Z 3 = Number_of_Z rk /\ (1 <= rk)%Z /\
    forall k : Z, (0 <= k < rk)%Z -> (5326 + rk < 2 ^ 53)%Z ->
      forall v,
        @mine Demo.crypto 5 (Number_add (Number_of_Z 5326) (Number_of_Z k)) v =
          Normal (Number_of_Z (rk - k)) (mined (Number_of_Z (rk - k)) v).
Proof.
  apply (@mine_seed_is_an_offset Demo.crypto 5 5326%Z Demo.w0
           (Number_of_Z 3) (mined 3 Demo.w0)).
  - lia.
  - vm_compute. reflexivity.
Defined.

Lemma Transaction_toString_equal_iff_witness :
  Demo.tx_nan <> Demo.tx_inf /\
  Transaction_toString Demo.tx_nan = Transaction_toString Demo.tx_inf /\
  JSON_number (amount Demo.tx_nan) = JSON_number (amount Demo.tx_inf) /\
  payer Demo.tx_nan = payer Demo.tx_inf /\
  payee Demo.tx_nan = payee Demo.tx_inf.
Proof.
  assert (Hsame : Transaction_toString Demo.tx_nan
                  = Transaction_toString Demo.tx_inf)
    by (vm_compute; reflexivity).
  split; [intros Heq; apply (f_equal amount) in Heq; discriminate Heq|].
  split; [exact Hsame|].
  exact (proj1 (Transaction_toString_equal_iff Demo.tx_nan Demo.tx_inf) Hsame).
Defined.

Lemma equal_hashes_mean_equal_renderings_or_a_collision_witness :
  Demo.block_nan <> Demo.block_inf /\
  @hash Demo.crypto Demo.block_nan = @hash Demo.crypto Demo.block_inf /\
  ((JSON_Block Demo.block_nan = JSON_Block Demo.block_inf /\
    prevHash Demo.block_nan = prevHash Demo.block_inf /\
    payer (transaction Demo.block_nan) = payer (transaction Demo.block_inf) /\
    payee (transaction Demo.block_nan) = payee (transaction Demo.block_inf) /\
    JSON_number (amount (transaction Demo.block_nan))
      = JSON_number (amount (transaction Demo.block_inf)) /\
    JSON_number (ts Demo.block_nan) = JSON_number (ts Demo.block_inf) /\
    JSON_number (nonce Demo.block_nan) = JSON_number (nonce Demo.block_inf)) \/
   @collide Demo.crypto Demo.block_nan Demo.block_inf).
Proof.
  assert (Hh : @hash Demo.crypto Demo.block_nan = @hash Demo.crypto Demo.block_inf)
    by (vm_compute; reflexivity).
  split.
  { intros Heq. apply (f_equal (fun b => amount (transaction b))) in Heq.
    discriminate Heq. }
  split; [exact Hh|].
  exact (@equal_hashes_mean_equal_renderings_or_a_collision Demo.crypto
           Demo.block_nan Demo.block_inf Hh).
Defined.

Lemma tail_hash_commits_to_the_chain_witness :
  Demo.chain_nan <> Demo.chain_inf /\
  (Forall2 (fun b1 b2 => JSON_Block b1 = JSON_Block b2)
           Demo.chain_nan Demo.chain_inf \/
   exists i b1 b2,
     Demo.chain_nan !! i = Some b1 /\ Demo.chain_inf !! i = Some b2 /\
     @collide Demo.crypto b1 b2).
Proof.
  split.
  { intros Heq.
    apply (f_equal (fun l => option_map (fun b => amount (transaction b))
                               (nth_error l 1))) in Heq.
    discriminate Heq. }
  apply (@tail_hash_commits_to_the_chain Demo.crypto
           Demo.chain_nan Demo.chain_inf Demo.block_nan Demo.block_inf).
  - apply links_ok_linked. vm_compute. reflexivity.
  - apply links_ok_linked. vm_compute. reflexivity.
  - reflexivity.
  - reflexivity.
  - reflexivity.
  - vm_compute. reflexivity.
Defined.

Lemma addBlock_throws_only_before_it_writes_witness :
  Demo.w0 = Demo.w0 /\
  (@verify Demo.crypto (Transaction_toString Demo.tx_ab) "initial" Demo.sig_ab
     = inl CryptoError \/
   (@verify Demo.crypto (Transaction_toString Demo.tx_ab) "initial" Demo.sig_ab
      = inr true /\
    chain (instance Demo.w0) = [] /\ CryptoError = TypeError)).
Proof.
  apply (proj1 (@addBlock_throws_only_before_it_writes Demo.crypto Demo.host
                  Demo.tx_ab "initial" Demo.sig_ab Demo.w0 CryptoError Demo.w0)).
  vm_compute. reflexivity.
Defined.

Lemma script_pays_along_the_chain_witness :
  exists w' b1 b2 b3,
    @script Demo.crypto Demo.host Demo.w0 = Normal tt w' /\
    chain (instance w') = (chain (instance Demo.w0) ++ [b1; b2; b3])%list /\
    transaction b1 = mkTransaction 50 "public:0" "public:1" /\
    transaction b2 = mkTransaction 23 "public:1" "public:2" /\
    transaction b3 = mkTransaction 5 "public:2" "public:0" /\
    prevHash b1 = @hash Demo.crypto Demo.genesis /\
    prevHash b2 = @hash Demo.crypto b1 /\
    prevHash b3 = @hash Demo.crypto b2 /\
    console (host w') = (console (host Demo.w0) ++ [Inspected (instance w')])%list.
Proof.
  apply (@script_pays_along_the_chain Demo.crypto Demo.host Demo.w0
           Demo.genesis Demo.pair0 Demo.pair1 Demo.pair2).
  - reflexivity.
  - reflexivity.
  - reflexivity.
  - reflexivity.
  - exact (demo_pair_sound "0").
  - exact (demo_pair_sound "1").
  - exact (demo_pair_sound "2").
Defined.
